(** * libhtml: the node model and the rendering engine of [html.go]

    A shallow embedding of the core of [github.com/alexisbcz/libhtml]:
    the [Node] variants, [Tag] with its attribute map, the recursive
    [Render] methods, and the escaping done by [text.Render].

    Conventions of the embedding.
    - A Go [string] is a sequence of bytes: Rocq's [string].
    - [io.Writer] is abstract.  The whole state a render can touch (the
      sink, and whatever the caller's closures capture) is one value of
      type [World]; [Write s w] performs one [w.Write([]byte(s))] and
      gives the error, if any, and the next state.  The byte count that
      [Write] returns is discarded everywhere in [html.go].
    - A [func() Node] is a state transformer giving the node (or nil)
      it returns (the closure is taken to return); a nil function value
      is [None].
    - A nil [Node] interface value is [None]; calling a method on it, or
      calling a nil function, panics: [Panic].
    - [range] over a Go map visits every entry once, in an order the
      runtime chooses: [mapRange].
    - A setter mutates the receiver and returns the same pointer; here it
      returns the record the receiver holds after the call.  The tags
      considered are those made by [NewTag], whose map is allocated. *)

From Stdlib Require Import String Ascii List Bool Arith Lia.
From stdpp Require Import base option list strings gmap fin_maps.

Import ListNotations.
Local Open Scope string_scope.
Set Warnings "-register-all".

(** ** Bytes used in the literals of [html.go] *)

(** The byte 0x22, the double quote of the Go literals. *)
Definition dquote : ascii := "034"%char.

(** ** Package [html] of the Go standard library

    [html.EscapeString(s)] is [htmlEscaper.Replace(s)], where
    [htmlEscaper] is the [strings.NewReplacer] of the five pairs
    ampersand to [&amp;], apostrophe to [&#39;], less-than to [&lt;],
    greater-than to [&gt;] and double quote to [&#34;].  Every pattern is
    one byte, so the replacer makes a single left-to-right pass and
    writes, for each input byte, either its replacement or the byte
    itself. *)
Definition escapeByte (c : ascii) : string :=
  if Ascii.eqb c "&" then "&amp;"
  else if Ascii.eqb c "'" then "&#39;"
  else if Ascii.eqb c "<" then "&lt;"
  else if Ascii.eqb c ">" then "&gt;"
  else if Ascii.eqb c dquote then "&#34;"
  else String c EmptyString.

Fixpoint EscapeString (s : string) : string :=
  match s with
  | EmptyString => EmptyString
  | String c rest => escapeByte c ++ EscapeString rest
  end.

(** ** The data model *)

(** [type Tag struct { name; isVoid; children; attributes }], over the
    type of nodes (the record is one of the [Node] variants below). *)
Record Tag_ (N : Type) : Type := mkTag {
  name : string;
  isVoid : bool;
  children : list (option N);
  attributes : gmap string string
}.
Arguments mkTag {N} _ _ _ _.
Arguments name {N} _.
Arguments isVoid {N} _.
Arguments children {N} _.
Arguments attributes {N} _.

Section Model.

Context {World error : Type}.

(** One [w.Write(p)] on the sink. *)
Variable Write : string -> World -> option error * World.

(** The order in which one [range] statement visits a map. *)
Variable mapRange : gmap string string -> World -> list (string * string).

(** The implementations of [type Node interface { Render(w io.Writer) error }]. *)
Inductive Node : Type :=
| document (children : list (option Node))
| text (content : string)
| raw (content : string)
| if_ (condition : bool) (then_ : option Node)
| ifFunc (condition : bool) (thenFn : option (World -> option Node * World))
| ifElse (condition : bool) (then_ else_ : option Node)
| ifElseFunc (condition : bool)
    (thenFn elseFn : option (World -> option Node * World))
| map_ (T : Type) (items : list T)
    (transform : option (T -> World -> option Node * World))
| group (children : list (option Node))
| tag (e : Tag_ Node).

(** [func() Node] *)
Definition Thunk : Type := World -> option Node * World.

Definition Tag : Type := Tag_ Node.

(** What a call of [Render] comes to: it returns [nil], it returns an
    error, or it panics. *)
Inductive Outcome : Type :=
| Ok
| Err (e : error)
| Panic.

(** A statement sequence of a [Render] body: state in, outcome and state
    out. *)
Definition M : Type := World -> Outcome * World.

(** [if err := c; err != nil { return err }; k] *)
Definition andThen (c k : M) : M :=
  fun w =>
    match c w with
    | (Ok, w1) => k w1
    | (o, w1) => (o, w1)
    end.

(** [return nil] *)
Definition done_ : M := fun w => (Ok, w).

(** [_, err := w.Write([]byte(s))], [io.WriteString(w, s)] and
    [fmt.Fprintf(w, ...)] once formatted: one write, its error returned. *)
Definition write (s : string) : M :=
  fun w =>
    match Write s w with
    | (None, w1) => (Ok, w1)
    | (Some e, w1) => (Err e, w1)
    end.

(** [for _, x := range xs { if err := body(x); err != nil { return err } }
     return nil] *)
Fixpoint forEach {A : Type} (body : A -> M) (xs : list A) : M :=
  match xs with
  | [] => done_
  | x :: rest => andThen (body x) (forEach body rest)
  end.

(** The attribute loop's [fmt.Fprintf]: a space, the key, an equals
    sign, and the value between double quotes. *)
Definition attrFragment (kv : string * string) : string :=
  " " ++ fst kv ++ "=" ++ String dquote (snd kv ++ String dquote EmptyString).

Fixpoint Render (n : Node) : M :=
  match n with
  | document children =>
      andThen (write "<!DOCTYPE html>")
        (forEach (fun child =>
                    match child with
                    | None => done_
                    | Some c => Render c
                    end) children)
  | text content => write (EscapeString content)
  | raw content => write content
  | if_ condition then_ =>
      if condition then
        match then_ with
        | Some t => Render t
        | None => fun w => (Panic, w)
        end
      else done_
  | ifFunc condition thenFn =>
      match condition, thenFn with
      | true, Some f =>
          fun w =>
            match f w with
            | (Some node, w1) => Render node w1
            | (None, w1) => (Ok, w1)
            end
      | _, _ => done_
      end
  | ifElse condition then_ else_ =>
      match (if condition then then_ else else_) with
      | Some b => Render b
      | None => fun w => (Panic, w)
      end
  | ifElseFunc condition thenFn elseFn =>
      match condition, thenFn with
      | true, Some f =>
          fun w =>
            match f w with
            | (Some node, w1) => Render node w1
            | (None, w1) => (Ok, w1)
            end
      | _, _ =>
          match elseFn with
          | None => fun w => (Panic, w)
          | Some g =>
              fun w =>
                match g w with
                | (Some node, w1) => Render node w1
                | (None, w1) => (Panic, w1)
                end
          end
      end
  | map_ T items transform =>
      forEach (fun item =>
                 match transform with
                 | None => fun w => (Panic, w)
                 | Some f =>
                     fun w =>
                       match f item w with
                       | (Some node, w1) => Render node w1
                       | (None, w1) => (Panic, w1)
                       end
                 end) items
  | group children =>
      forEach (fun child =>
                 match child with
                 | None => done_
                 | Some c => Render c
                 end) children
  | tag e =>
      andThen (write ("<" ++ name e))
        (andThen (fun w =>
                    forEach (fun kv => write (attrFragment kv))
                      (mapRange (attributes e) w) w)
           (if isVoid e then write "/>"
            else
              andThen (write ">")
                (andThen
                   (forEach (fun child =>
                               match child with
                               | None => done_
                               | Some c => Render c
                               end) (children e))
                   (write ("</" ++ name e ++ ">")))))
  end.

(** A child of a children slice, as the three child loops treat it:
    [if child == nil { continue }], else [child.Render(w)]. *)
Definition renderChild (child : option Node) : M :=
  match child with
  | None => done_
  | Some c => Render c
  end.

(** The constructors of [html.go]. *)
Definition Document (children : list (option Node)) : Node :=
  document children.

Definition Text (content : string) : Node := text content.

Definition Raw (content : string) : Node := raw content.

Definition If (condition : bool) (then_ : option Node) : Node :=
  if_ condition then_.

Definition IfFunc (condition : bool) (thenFn : option Thunk) : Node :=
  ifFunc condition thenFn.

Definition IfElse (condition : bool) (then_ else_ : option Node) : Node :=
  ifElse condition then_ else_.

Definition IfElseFunc (condition : bool) (thenFn elseFn : option Thunk) : Node :=
  ifElseFunc condition thenFn elseFn.

Definition Map {T : Type} (items : list T) (transform : option (T -> Thunk)) : Node :=
  map_ T items transform.

Definition Group (children : list (option Node)) : Node := group children.

Definition NewTag (name : string) (isVoid : bool) (children : list (option Node)) : Tag :=
  mkTag name isVoid children ∅.

(** [func (e *Tag) Children(children ...Node) *Tag] *)
Definition Children (children : list (option Node)) (e : Tag) : Tag :=
  mkTag (name e) (isVoid e) children (attributes e).

(** [func (t *Tag) Attribute(key, value string) *Tag] *)
Definition Attribute (key value : string) (t : Tag) : Tag :=
  if String.eqb value "" then t
  else mkTag (name t) (isVoid t) (children t) (<[key := value]> (attributes t)).

(** [func (t *Tag) AttributeIf(cond bool, key, value string) *Tag] *)
Definition AttributeIf (cond : bool) (key value : string) (t : Tag) : Tag :=
  if cond
  then mkTag (name t) (isVoid t) (children t) (<[key := value]> (attributes t))
  else t.

(** [func (e *Tag) ClassIf(condition bool, value string) *Tag], one of the
    per-attribute conditional setters; all of them have this body. *)
Definition ClassIf (condition : bool) (value : string) (e : Tag) : Tag :=
  if condition then Attribute "class" value e else e.

(** One call of a [func() Node], its result handed to [k]. *)
Definition invoke (f : Thunk) (k : option Node -> M) : M :=
  fun w => let (node, w1) := f w in k node w1.

(** [panic]: the run stops where it is. *)
Definition panic : M := fun w => (Panic, w).

(** [if node != nil { return node.Render(w) }; return nil] *)
Definition renderOrNothing (node : option Node) : M :=
  match node with
  | Some n => Render n
  | None => done_
  end.

(** [return node.Render(w)] with no nil test before it. *)
Definition renderUnchecked (node : option Node) : M :=
  match node with
  | Some n => Render n
  | None => panic
  end.

(** The attribute loop of [Tag.Render]. *)
Definition renderAttributes (attrs : gmap string string) : M :=
  fun w => forEach (fun kv => write (attrFragment kv)) (mapRange attrs w) w.

End Model.

Arguments Node : clear implicits.
Arguments Thunk : clear implicits.
Arguments Tag : clear implicits.
Arguments Outcome : clear implicits.
Arguments M : clear implicits.
Arguments Ok {error}.
Arguments Panic {error}.
Arguments Err {error} e.

(** ** The substitutions as the specification words them

    One [strings.ReplaceAll] per character, the ampersand first. *)
Fixpoint replaceAll (old : ascii) (new : string) (s : string) : string :=
  match s with
  | EmptyString => EmptyString
  | String c rest =>
      (if Ascii.eqb c old then new else String c EmptyString)
        ++ replaceAll old new rest
  end.

Definition escapeAmpersandFirst (s : string) : string :=
  replaceAll "'" "&#39;"
    (replaceAll dquote "&quot;"
       (replaceAll ">" "&gt;"
          (replaceAll "<" "&lt;"
             (replaceAll "&" "&amp;" s)))).

(** The same passes with the entity that [html.EscapeString] writes for
    the double quote. *)
Definition escapeAmpersandFirst34 (s : string) : string :=
  replaceAll "'" "&#39;"
    (replaceAll dquote "&#34;"
       (replaceAll ">" "&gt;"
          (replaceAll "<" "&lt;"
             (replaceAll "&" "&amp;" s)))).

(** The five bytes that [html.EscapeString] replaces. *)
Definition escaped (c : ascii) : bool :=
  Ascii.eqb c "&" || Ascii.eqb c "<" || Ascii.eqb c ">"
  || Ascii.eqb c dquote || Ascii.eqb c "'".

(** The children with the nil entries removed. *)
Definition withoutNil {N : Type} (children : list (option N)) : list (option N) :=
  List.filter (fun c => match c with Some _ => true | None => false end) children.

(** The entries of a list that are there, in order. *)
Fixpoint present {A : Type} (os : list (option A)) : list A :=
  match os with
  | [] => []
  | Some x :: rest => x :: present rest
  | None :: rest => present rest
  end.

(** The strings of a list one after the other. *)
Definition joined (pieces : list string) : string :=
  fold_right String.append "" pieces.

(** What the attribute loop writes for the entries [kvs], in that order. *)
Definition attrFragments (kvs : list (string * string)) : string :=
  joined (List.map attrFragment kvs).

(** ** Sinks and closures to run the model on *)

(** [strings.Builder], the sink of the repository's test: a write appends
    and never fails. *)
Definition Builder : Type := string.

Definition builderWrite (s : string) (b : Builder) : option unit * Builder :=
  (None, b ++ s).

(** An iteration order for a run: the one of [map_to_list]. *)
Definition rangeListed {W : Type} (m : gmap string string) (_ : W) : list (string * string) :=
  map_to_list m.

(** A writer with [room] bytes left, together with a log of the closures
    that ran: a write that does not fit writes nothing and fails. *)
Inductive WriteError : Type := ErrShortWrite.

Record Harness : Type := mkHarness {
  out : string;
  room : nat;
  calls : list string
}.

Definition harnessWrite (s : string) (h : Harness) : option WriteError * Harness :=
  if Nat.leb (String.length s) (room h)
  then (None, mkHarness (out h ++ s) (room h - String.length s) (calls h))
  else (Some ErrShortWrite, h).

(** A [func() Node] that logs [label] and returns [node]. *)
Definition probe (label : string) (node : option (Node Harness)) : Thunk Harness :=
  fun h => (node, mkHarness (out h) (room h) (calls h ++ [label])).

(** A transform for [Map] over strings: logs the item, returns its text. *)
Definition probeItem (item : string) : Thunk Harness :=
  probe item (Some (text item)).

(** ** Setters over [Attribute]

    An element type of [html.go] is a struct that holds its [*Tag], and
    its setters return the element they were called on: here an element
    is its [Tag]. *)

(** [strings.Join(elems, sep)] of the Go standard library: nothing for no
    element, the element for one, else the elements with [sep] between. *)
Fixpoint Join (elems : list string) (sep : string) : string :=
  match elems with
  | [] => ""
  | x :: rest =>
      match rest with
      | [] => x
      | _ :: _ => x ++ sep ++ Join rest sep
      end
  end.

(** [func (e *Tag) Class(values ...string) *Tag] *)
Definition Class {World : Type} (values : list string) (e : Tag World) : Tag World :=
  Attribute "class" (Join values " ") e.

(** [func Input(children ...Node) *input] *)
Definition Input {World : Type} (children : list (option (Node World))) : Tag World :=
  NewTag "input" true children.

(** [func Script(children ...Node) *script] *)
Definition Script {World : Type} (children : list (option (Node World))) : Tag World :=
  NewTag "script" false children.

Module input.

(** [func (e *input) Name(values ...string) *input] *)
Definition Name {World : Type} (values : list string) (e : Tag World) : Tag World :=
  Attribute "name" (Join values " ") e.

(** [func (e *input) NameIf(condition bool, value string) *input]: the
    body does not read [condition]. *)
Definition NameIf {World : Type} (condition : bool) (value : string) (e : Tag World) : Tag World :=
  Attribute "name" value e.

(** [func (e *input) Id(values ...string) *input] *)
Definition Id {World : Type} (values : list string) (e : Tag World) : Tag World :=
  Attribute "id" (Join values " ") e.

(** [func (e *input) IdIf(condition bool, value string) *input]: the body
    does not read [condition]. *)
Definition IdIf {World : Type} (condition : bool) (value : string) (e : Tag World) : Tag World :=
  Attribute "id" value e.

End input.

Module script.

(** [func (e *script) Src(value string) *script] *)
Definition Src {World : Type} (value : string) (e : Tag World) : Tag World :=
  Attribute "src" value e.

(** [func (e *script) SrcIf(condition bool, value string) *script]: the
    key is written with a capital. *)
Definition SrcIf {World : Type} (condition : bool) (value : string) (e : Tag World) : Tag World :=
  if condition then Attribute "Src" value e else e.

End script.

(** ** Bytes of a string *)

(** Whether some byte of [s] satisfies [p]. *)
Fixpoint hasByte (p : ascii -> bool) (s : string) : bool :=
  match s with
  | EmptyString => false
  | String c rest => p c || hasByte p rest
  end.

(** The four bytes that open or close markup or an attribute value. *)
Definition markupByte (c : ascii) : bool :=
  Ascii.eqb c "<" || Ascii.eqb c ">" || Ascii.eqb c dquote || Ascii.eqb c "'".

(** A reader of the five entities that [html.EscapeString] writes; any
    other byte, and an ampersand that starts none of the five, is kept. *)
Fixpoint unescapeFive (s : string) : string :=
  match s with
  | EmptyString => EmptyString
  | String c rest =>
      if Ascii.eqb c "&" then
        match rest with
        | String c1 (String c2 (String c3 r3)) =>
            if Ascii.eqb c1 "l" && Ascii.eqb c2 "t" && Ascii.eqb c3 ";"
            then String "<" (unescapeFive r3)
            else if Ascii.eqb c1 "g" && Ascii.eqb c2 "t" && Ascii.eqb c3 ";"
            then String ">" (unescapeFive r3)
            else
              match r3 with
              | String c4 r4 =>
                  if Ascii.eqb c1 "a" && Ascii.eqb c2 "m" && Ascii.eqb c3 "p"
                     && Ascii.eqb c4 ";"
                  then String "&" (unescapeFive r4)
                  else if Ascii.eqb c1 "#" && Ascii.eqb c2 "3" && Ascii.eqb c3 "9"
                          && Ascii.eqb c4 ";"
                  then String "'" (unescapeFive r4)
                  else if Ascii.eqb c1 "#" && Ascii.eqb c2 "3" && Ascii.eqb c3 "4"
                          && Ascii.eqb c4 ";"
                  then String dquote (unescapeFive r4)
                  else String c (unescapeFive rest)
              | EmptyString => String c (unescapeFive rest)
              end
        | _ => String c (unescapeFive rest)
        end
      else String c (unescapeFive rest)
  end.

(** ** Induction on nodes

    A node is reached from its parent as a child, as a branch, or as the
    result of one call of a closure of the parent. *)

Section NodeInduction.

Context {World : Type}.
Variable P : Node World -> Prop.

Definition holdsOpt (o : option (Node World)) : Prop :=
  match o with
  | Some n => P n
  | None => True
  end.

Definition holdsThunk (f : option (Thunk World)) : Prop :=
  match f with
  | Some th => forall w, holdsOpt (fst (th w))
  | None => True
  end.

Hypothesis P_document : forall cs, Forall holdsOpt cs -> P (document cs).
Hypothesis P_text : forall s, P (text s).
Hypothesis P_raw : forall s, P (raw s).
Hypothesis P_if : forall c t, holdsOpt t -> P (if_ c t).
Hypothesis P_ifFunc : forall c f, holdsThunk f -> P (ifFunc c f).
Hypothesis P_ifElse : forall c t e, holdsOpt t -> holdsOpt e -> P (ifElse c t e).
Hypothesis P_ifElseFunc :
  forall c f g, holdsThunk f -> holdsThunk g -> P (ifElseFunc c f g).
Hypothesis P_map :
  forall T items (tr : option (T -> Thunk World)),
    (forall x, holdsThunk (option_map (fun f => f x) tr)) ->
    P (map_ T items tr).
Hypothesis P_group : forall cs, Forall holdsOpt cs -> P (group cs).
Hypothesis P_tag : forall e, Forall holdsOpt (children e) -> P (tag e).

Fixpoint Node_induction (n : Node World) : P n :=
  let opt (o : option (Node World)) : holdsOpt o :=
    match o with
    | Some m => Node_induction m
    | None => I
    end in
  let thunk (f : option (Thunk World)) : holdsThunk f :=
    match f with
    | Some th =>
        fun w =>
          match th w as r return holdsOpt (fst r) with
          | (Some m, _) => Node_induction m
          | (None, _) => I
          end
    | None => I
    end in
  let all :=
    fix all (cs : list (option (Node World))) : Forall holdsOpt cs :=
      match cs with
      | [] => @List.Forall_nil _ holdsOpt
      | c :: rest =>
          @List.Forall_cons _ holdsOpt c rest
            (match c with
             | Some m => Node_induction m
             | None => I
             end)
            (all rest)
      end in
  match n with
  | document cs => P_document cs (all cs)
  | text s => P_text s
  | raw s => P_raw s
  | if_ c t => P_if c t (opt t)
  | ifFunc c f => P_ifFunc c f (thunk f)
  | ifElse c t e => P_ifElse c t e (opt t) (opt e)
  | ifElseFunc c f g => P_ifElseFunc c f g (thunk f) (thunk g)
  | map_ T items tr =>
      P_map T items tr
        (fun x =>
           match tr as tr0 return holdsThunk (option_map (fun f => f x) tr0) with
           | Some f =>
               fun w =>
                 match f x w as r return holdsOpt (fst r) with
                 | (Some m, _) => Node_induction m
                 | (None, _) => I
                 end
           | None => I
           end)
  | group cs => P_group cs (all cs)
  | tag e => P_tag e (all (children e))
  end.

End NodeInduction.

(** ** Outcomes of a render *)

(** Every error that [m] returns satisfies [Q]. *)
Definition errorsIn {World error : Type} (Q : error -> Prop) (m : M World error) : Prop :=
  forall w e, fst (m w) = Err e -> Q e.

(** [m] does not panic. *)
Definition calm {World error : Type} (m : M World error) : Prop :=
  forall w, fst (m w) <> Panic.

(** ** Where a render can panic

    [safe n]: wherever [Render] would call a method on a node or call a
    function value while rendering [n], the node or function is not nil,
    whatever state the closures are called in.  A nil child is safe (the
    child loops skip it), and so are a nil [thenFn] and a nil result of
    [thenFn] (both are tested).

    The nodes of [Node] are the nil interface value and the values that
    the constructors of [html.go] return.  A nil pointer of one of the
    node types stored in a [Node] is neither: it is not equal to nil,
    so no nil test skips it, and its [Render] panics.  Such a value, and
    a node type of the caller's own, is outside [Node] and so outside
    what [safe] speaks of. *)
Fixpoint safe {World : Type} (n : Node World) : Prop :=
  match n with
  | document cs =>
      (fix all (l : list (option (Node World))) : Prop :=
         match l with
         | [] => True
         | c :: rest =>
             match c with Some m => safe m | None => True end /\ all rest
         end) cs
  | text _ => True
  | raw _ => True
  | if_ c t =>
      if c then match t with Some m => safe m | None => False end else True
  | ifFunc c f =>
      match c, f with
      | true, Some th =>
          forall w, match th w with (Some m, _) => safe m | (None, _) => True end
      | _, _ => True
      end
  | ifElse c t e =>
      match (if c then t else e) with Some m => safe m | None => False end
  | ifElseFunc c f g =>
      match c, f with
      | true, Some th =>
          forall w, match th w with (Some m, _) => safe m | (None, _) => True end
      | _, _ =>
          match g with
          | Some th =>
              forall w, match th w with (Some m, _) => safe m | (None, _) => False end
          | None => False
          end
      end
  | map_ T items tr =>
      match items with
      | [] => True
      | _ :: _ =>
          match tr with
          | Some f =>
              forall x w, In x items ->
                match f x w with (Some m, _) => safe m | (None, _) => False end
          | None => False
          end
      end
  | group cs =>
      (fix all (l : list (option (Node World))) : Prop :=
         match l with
         | [] => True
         | c :: rest =>
             match c with Some m => safe m | None => True end /\ all rest
         end) cs
  | tag e =>
      if isVoid e then True
      else
        (fix all (l : list (option (Node World))) : Prop :=
           match l with
           | [] => True
           | c :: rest =>
               match c with Some m => safe m | None => True end /\ all rest
           end) (children e)
  end.

(** [safe] for an entry of a children slice. *)
Definition safeChild {World : Type} (c : option (Node World)) : Prop :=
  match c with
  | Some m => safe m
  | None => True
  end.

(** * Properties *)

(** Splits a conjunction into its parts, and nothing else. *)
Ltac conjs := repeat match goal with |- _ /\ _ => split end.

(** ** The escaper *)

Lemma append_cons (c : ascii) (s1 s2 : string) :
  String c s1 ++ s2 = String c (s1 ++ s2).
Proof. reflexivity. Qed.

Lemma append_assoc3 (a b c : string) : (a ++ b) ++ c = a ++ (b ++ c).
Proof.
  induction a as [|x a IH]; [reflexivity |].
  rewrite !append_cons, IH. reflexivity.
Qed.

Lemma replaceAll_app (old : ascii) (new s1 s2 : string) :
  replaceAll old new (s1 ++ s2) = replaceAll old new s1 ++ replaceAll old new s2.
Proof.
  induction s1 as [|c s1 IH]; [reflexivity |].
  rewrite append_cons. simpl replaceAll. rewrite IH.
  symmetry. apply append_assoc3.
Qed.

Lemma EscapeString_app (s1 s2 : string) :
  EscapeString (s1 ++ s2) = EscapeString s1 ++ EscapeString s2.
Proof.
  induction s1 as [|c s1 IH]; [reflexivity |].
  rewrite append_cons. simpl EscapeString. rewrite IH.
  symmetry. apply append_assoc3.
Qed.

Lemma escapeAmpersandFirst34_app (s1 s2 : string) :
  escapeAmpersandFirst34 (s1 ++ s2)
  = escapeAmpersandFirst34 s1 ++ escapeAmpersandFirst34 s2.
Proof.
  unfold escapeAmpersandFirst34. now rewrite !replaceAll_app.
Qed.

(** On one byte the five passes come to the replacer's table: no pass
    touches an entity written by an earlier one. *)
Lemma escapeAmpersandFirst34_byte (c : ascii) :
  escapeAmpersandFirst34 (String c EmptyString) = escapeByte c.
Proof.
  destruct c as [[] [] [] [] [] [] [] []]; vm_compute; reflexivity.
Qed.

Lemma EscapeString_sequential (s : string) :
  EscapeString s = escapeAmpersandFirst34 s.
Proof.
  induction s as [|c s IH]; [reflexivity |].
  change (String c s) with (String c EmptyString ++ s).
  rewrite escapeAmpersandFirst34_app, escapeAmpersandFirst34_byte, <- IH.
  reflexivity.
Qed.

Lemma escapeByte_other (c : ascii) :
  escaped c = false -> escapeByte c = String c EmptyString.
Proof.
  destruct c as [[] [] [] [] [] [] [] []]; vm_compute; congruence.
Qed.

(** ** Loops *)

Section Loops.

Context {World error : Type}.

Lemma andThen_done_l (k : M World error) (w : World) :
  andThen done_ k w = k w.
Proof. reflexivity. Qed.

Lemma andThen_done_r (c : M World error) (w : World) :
  andThen c done_ w = c w.
Proof.
  unfold andThen, done_. destruct (c w) as [[] w1]; reflexivity.
Qed.

Lemma andThen_assoc (a b c : M World error) (w : World) :
  andThen (andThen a b) c w = andThen a (andThen b c) w.
Proof.
  unfold andThen. destruct (a w) as [[] w1]; reflexivity.
Qed.

Lemma andThen_ext (c k k' : M World error) (w : World) :
  (forall w1, k w1 = k' w1) -> andThen c k w = andThen c k' w.
Proof.
  intros H. unfold andThen. destruct (c w) as [[] w1]; auto.
Qed.

Lemma forEach_app {A : Type} (body : A -> M World error) (xs ys : list A) (w : World) :
  forEach body (xs ++ ys)%list w
  = andThen (forEach body xs) (forEach body ys) w.
Proof.
  revert w. induction xs as [|x xs IH]; intros w; [reflexivity |].
  cbn [forEach app]. rewrite andThen_assoc.
  apply andThen_ext, IH.
Qed.

Lemma forEach_singleton {A : Type} (body : A -> M World error) (x : A) (w : World) :
  forEach body [x] w = body x w.
Proof. apply andThen_done_r. Qed.

End Loops.

Lemma append_nil_r (s : string) : s ++ "" = s.
Proof.
  induction s as [|c s IH]; [reflexivity |].
  now rewrite append_cons, IH.
Qed.

(** On [strings.Builder] a loop of writes appends the pieces in order. *)
Lemma forEach_write_Builder {A : Type} (piece : A -> string) (xs : list A) (b : Builder) :
  forEach (fun x => write builderWrite (piece x)) xs b
  = (Ok, b ++ joined (List.map piece xs)).
Proof.
  revert b. induction xs as [|x xs IH]; intros b; cbn [forEach joined List.map fold_right].
  - unfold done_. now rewrite append_nil_r.
  - unfold andThen, write, builderWrite. rewrite IH.
    fold (joined (List.map piece xs)). now rewrite append_assoc3.
Qed.

(** On [strings.Builder] a child loop over texts and nil entries appends
    the escaped texts in order. *)
Lemma forEach_texts_Builder
  (rg : gmap string string -> Builder -> list (string * string))
  (os : list (option string)) (b : Builder) :
  forEach (renderChild builderWrite rg) (List.map (option_map Text) os) b
  = (Ok, b ++ joined (List.map EscapeString (present os))).
Proof.
  revert b. induction os as [|[s|] os IH]; intros b;
    cbn [forEach List.map option_map present joined fold_right].
  - unfold done_. now rewrite append_nil_r.
  - unfold andThen. cbn [renderChild Render Text]. unfold write, builderWrite.
    rewrite IH. fold (joined (List.map EscapeString (present os))).
    now rewrite append_assoc3.
  - exact (IH b).
Qed.

Lemma filter_key_absent (l : list (string * string)) (k : string) :
  k ∉ l.*1 -> filter (λ kv, kv.1 = k) l = [].
Proof.
  induction l as [|[k' v'] l IH]; intros Hk; [reflexivity |].
  cbn in Hk. apply not_elem_of_cons in Hk as [Hne Hk].
  rewrite filter_cons_False by (cbn; congruence). now apply IH.
Qed.

(** In a list of entries with distinct keys, the entries of key [k] are
    the one that is there. *)
Lemma filter_key_NoDup (l : list (string * string)) (k v : string) :
  NoDup (l.*1) -> (k, v) ∈ l ->
  filter (λ kv, kv.1 = k) l = [(k, v)].
Proof.
  induction l as [|[k' v'] l IH]; intros Hnd Hin.
  - now apply elem_of_nil in Hin.
  - cbn in Hnd. apply NoDup_cons in Hnd as [Hk' Hnd].
    apply elem_of_cons in Hin as [Heq | Hin].
    + inversion Heq; subst k' v'.
      rewrite filter_cons_True by reflexivity. f_equal.
      now apply filter_key_absent.
    + destruct (decide (k' = k)) as [-> | Hne].
      * exfalso. apply Hk'. apply list_elem_of_fmap.
        exists (k, v). split; [reflexivity | assumption].
      * rewrite filter_cons_False by (cbn; congruence). now apply IH.
Qed.

Section Properties.

Context {World error : Type}.
Variable Write : string -> World -> option error * World.
Variable mapRange : gmap string string -> World -> list (string * string).

Local Abbreviation render := (Render Write mapRange).

Lemma forEach_withoutNil (cs : list (option (Node World))) (w : World) :
  forEach (renderChild Write mapRange) cs w
  = forEach (renderChild Write mapRange) (withoutNil cs) w.
Proof.
  revert w. induction cs as [|[c|] cs IH]; intros w; [reflexivity | |].
  - cbn [withoutNil List.filter forEach]. fold (withoutNil cs).
    apply andThen_ext, IH.
  - cbn [withoutNil List.filter forEach]. fold (withoutNil cs).
    exact (IH w).
Qed.

(** C1, as the code has it: [Text(s).Render] makes one write of
    [html.EscapeString(s)], which is [s] with each ampersand, less-than,
    greater-than, double quote and apostrophe replaced by [&amp;],
    [&lt;], [&gt;], [&#34;] and [&#39;] and every other byte kept (the
    same string as five successive replacements with the ampersand
    first, so nothing is escaped twice); [Raw(s).Render] makes one write
    of [s] itself.  On [strings.Builder] the two append the escaped
    string and the string; [Text] of [<b>] gives [&lt;b&gt;], [Raw] of
    it [<b>]. *)
Theorem Text_escapes_Raw_verbatim (s : string) (w : World) :
  render (Text s) w = write Write (EscapeString s) w
  /\ render (Raw s) w = write Write s w
  /\ EscapeString s = escapeAmpersandFirst34 s
  /\ EscapeString (String "&" s) = "&amp;" ++ EscapeString s
  /\ EscapeString (String "<" s) = "&lt;" ++ EscapeString s
  /\ EscapeString (String ">" s) = "&gt;" ++ EscapeString s
  /\ EscapeString (String dquote s) = "&#34;" ++ EscapeString s
  /\ EscapeString (String "'" s) = "&#39;" ++ EscapeString s
  /\ (forall c, escaped c = false ->
        EscapeString (String c s) = String c (EscapeString s))
  /\ (forall (rg : gmap string string -> Builder -> list (string * string))
             (b : Builder),
        Render builderWrite rg (Text s) b = (Ok, b ++ EscapeString s)
        /\ Render builderWrite rg (Raw s) b = (Ok, b ++ s))
  /\ Render builderWrite rangeListed (Text "<b>") "" = (Ok, "&lt;b&gt;")
  /\ Render builderWrite rangeListed (Raw "<b>") "" = (Ok, "<b>").
Proof.
  conjs; try reflexivity.
  - apply EscapeString_sequential.
  - intros c Hc. simpl. now rewrite (escapeByte_other c Hc).
  - intros rg b. split; reflexivity.
Qed.

(** C3, on the code: when the thunk that runs returns nil, the then
    branch of [IfFunc] and of [IfElseFunc] returns nil with no write (the
    state is the one the thunk left), and the else branch of
    [IfElseFunc], which has no nil test, panics. *)
Theorem lazy_nil_then_is_nothing_else_panics
  (f : Thunk World) (other : option (Thunk World)) (w w1 : World) :
  f w = (None, w1) ->
  render (IfFunc true (Some f)) w = (Ok, w1)
  /\ render (IfElseFunc true (Some f) other) w = (Ok, w1)
  /\ render (IfElseFunc false other (Some f)) w = (Panic, w1)
  /\ render (IfElseFunc true None (Some f)) w = (Panic, w1).
Proof.
  intros Hf. cbn. rewrite Hf. destruct other; auto.
Qed.

(** C4, amended: with a non-nil thunk for the branch that the condition
    selects, [IfElseFunc] and [IfFunc] call that thunk once, at render
    time, and render what it returned; the other thunk, nil or not, does
    not occur in the result, and [IfFunc] with a false condition calls
    nothing.  On the harness, whose closures log their calls, the log
    grows by exactly the selected thunk. *)
Theorem lazy_selected_thunk_runs_once
  (f g : Thunk World) (t e : option (Thunk World)) (w : World) :
  render (IfElseFunc true (Some f) e) w
    = invoke f (renderOrNothing Write mapRange) w
  /\ render (IfElseFunc false t (Some g)) w
    = invoke g (renderUnchecked Write mapRange) w
  /\ render (IfFunc true (Some f)) w
    = invoke f (renderOrNothing Write mapRange) w
  /\ render (IfFunc false t) w = (Ok, w)
  /\ (forall (c : bool) (a b : string) (h : Harness),
        calls (snd (Render harnessWrite rangeListed
                      (IfElseFunc c (Some (probe "then" (Some (Text a))))
                                    (Some (probe "else" (Some (Text b))))) h))
        = (calls h ++ [if c then "then" else "else"])%list)
  /\ (forall (c : bool) (a : string) (h : Harness),
        calls (snd (Render harnessWrite rangeListed
                      (IfFunc c (Some (probe "then" (Some (Text a))))) h))
        = (calls h ++ (if c then ["then"] else []))%list).
Proof.
  conjs.
  - cbn. unfold invoke. destruct (f w) as [[n|] w1]; reflexivity.
  - cbn. unfold invoke. destruct t; destruct (g w) as [[n|] w1]; reflexivity.
  - cbn. unfold invoke. destruct (f w) as [[n|] w1]; reflexivity.
  - destruct t; reflexivity.
  - intros [] a b h; cbn; unfold write, harnessWrite; cbn;
      destruct (Nat.leb _ _); reflexivity.
  - intros [] a h; cbn; unfold write, harnessWrite; cbn;
      [destruct (Nat.leb _ _); reflexivity | now rewrite app_nil_r].
Qed.

(** C5: [Render] panics, and returns no error, on [If(true, nil)], on an
    [IfElse] whose selected branch is nil, on [IfElseFunc] with a false
    condition and a nil [elseFn] or an [elseFn] that returns nil, and on
    a [Map] whose transform returns nil for the first item. *)
Theorem Render_panics_on_nil
  (n : option (Node World)) (t : option (Thunk World)) (g : World -> World)
  (T : Type) (x : T) (xs : list T) (w : World) :
  render (If true None) w = (Panic, w)
  /\ render (IfElse true None n) w = (Panic, w)
  /\ render (IfElse false n None) w = (Panic, w)
  /\ render (IfElseFunc false t None) w = (Panic, w)
  /\ render (IfElseFunc false t (Some (fun w0 => (None, g w0)))) w
     = (Panic, g w)
  /\ render (Map (x :: xs) (Some (fun _ w0 => (None, g w0)))) w
     = (Panic, g w).
Proof.
  conjs; try reflexivity; destruct t; reflexivity.
Qed.

(** C6: a void tag renders as the same tag with no children, whatever
    its children are: one write of the open fragment, the attribute
    loop, one write of [/>]; no child is rendered and no closing tag is
    written.  On [strings.Builder] that is the open fragment, the
    attribute fragments and [/>] appended, with no error: an [img] with
    a [src] and a child renders as the [img] with its [src] alone. *)
Theorem void_tag_ignores_children
  (nm : string) (attrs : gmap string string)
  (cs : list (option (Node World))) (w : World) :
  render (tag (mkTag nm true cs attrs)) w
    = render (tag (mkTag nm true [] attrs)) w
  /\ render (tag (mkTag nm true cs attrs)) w
     = andThen (write Write ("<" ++ nm))
         (andThen (renderAttributes Write mapRange attrs) (write Write "/>")) w
  /\ (forall (rg : gmap string string -> Builder -> list (string * string))
             (bcs : list (option (Node Builder))) (b : Builder),
        Render builderWrite rg (tag (mkTag nm true bcs attrs)) b
        = (Ok, b ++ ("<" ++ nm) ++ attrFragments (rg attrs (b ++ "<" ++ nm)) ++ "/>"))
  /\ Render builderWrite rangeListed
       (tag (Attribute "src" "a.png" (NewTag "img" true [Some (Text "never")]))) ""
     = (Ok, "<img src=" ++ String dquote ("a.png" ++ String dquote "/>")).
Proof.
  conjs; try reflexivity.
  intros rg bcs b. cbn [Render name isVoid attributes].
  unfold andThen at 1. unfold write at 1. unfold builderWrite at 1.
  unfold andThen at 1. rewrite forEach_write_Builder.
  unfold write, builderWrite, attrFragments. now rewrite !append_assoc3.
Qed.

(** C7: [Map] over no item returns nil at once; over [x :: xs] it calls
    the transform on [x] once, renders the node it returned (a panic if
    it is nil), and goes on with [xs] only if that returned nil; so the
    render of [xs ++ ys] is the render of [xs] followed, unless it
    failed, by that of [ys], and with a transform that only builds nodes
    it is the renders of the nodes in item order; on [strings.Builder],
    with a text per item, the output is the escaped texts one after the
    other.  On the harness: three items with room for all are called and
    written in order, and with room for one the second write fails, its
    error is returned, and the third item is neither transformed nor
    rendered. *)
Theorem Map_renders_items_in_order
  (T : Type) (f : T -> Thunk World) (tr : option (T -> Thunk World))
  (build : T -> Node World) (x : T) (xs ys : list T) (w : World) :
  render (Map [] tr) w = (Ok, w)
  /\ render (Map (x :: xs) (Some f)) w
     = andThen (invoke (f x) (renderUnchecked Write mapRange))
         (render (Map xs (Some f))) w
  /\ render (Map (xs ++ ys)%list tr) w
     = andThen (render (Map xs tr)) (render (Map ys tr)) w
  /\ render (Map xs (Some (fun item w0 => (Some (build item), w0)))) w
     = forEach (fun item => render (build item)) xs w
  /\ (forall (g : T -> string)
             (rg : gmap string string -> Builder -> list (string * string))
             (b : Builder),
        Render builderWrite rg
          (Map xs (Some (fun item b0 => (Some (Text (g item)), b0)))) b
        = (Ok, b ++ joined (List.map (fun item => EscapeString (g item)) xs)))
  /\ Render harnessWrite rangeListed
       (Map ["a"; "<"; "c"] (Some probeItem)) (mkHarness "" 10 [])
     = (Ok, mkHarness "a&lt;c" 4 ["a"; "<"; "c"])
  /\ Render harnessWrite rangeListed
       (Map ["a"; "b"; "c"] (Some probeItem)) (mkHarness "" 1 [])
     = (Err ErrShortWrite, mkHarness "a" 0 ["a"; "b"]).
Proof.
  conjs; try reflexivity.
  - cbn [Render Map forEach]. unfold andThen, invoke.
    destruct (f x w) as [[n|] w1]; reflexivity.
  - apply forEach_app.
  - intros g rg b.
    exact (forEach_write_Builder (fun item => EscapeString (g item)) xs b).
Qed.

(** C8: [Group], [Document] and a non-void [Tag] render their children
    as they render them with the nil entries removed: same state, same
    outcome; a nil child alone is nothing written and no error, and
    the group of [a], nil and [b] renders [ab]. *)
Theorem nil_children_are_skipped
  (nm : string) (attrs : gmap string string)
  (cs : list (option (Node World))) (w : World) :
  render (Group cs) w = render (Group (withoutNil cs)) w
  /\ render (Document cs) w = render (Document (withoutNil cs)) w
  /\ render (tag (mkTag nm false cs attrs)) w
     = render (tag (mkTag nm false (withoutNil cs) attrs)) w
  /\ render (Group (None :: cs)) w = render (Group cs) w
  /\ render (Group [None]) w = (Ok, w)
  /\ Render builderWrite rangeListed
       (Group [Some (Text "a"); None; Some (Text "b")]) "" = (Ok, "ab").
Proof.
  conjs; try reflexivity.
  - apply forEach_withoutNil.
  - cbn [Render Document]. apply andThen_ext. intros w1.
    apply forEach_withoutNil.
  - cbn [Render name isVoid attributes children].
    apply andThen_ext. intros w1.
    apply andThen_ext. intros w2.
    apply andThen_ext. intros w3.
    unfold andThen.
    pose proof (forEach_withoutNil cs w3) as H. unfold renderChild in H.
    rewrite H. reflexivity.
Qed.

(** C10: [Document] writes [<!DOCTYPE html>] first, whatever its
    children are, then renders them as [Group] does (each in order, nil
    ones skipped); if that first write fails its error is returned and
    no child is rendered; with no children the one write is all, and on
    [strings.Builder] the output is exactly [<!DOCTYPE html>].  With a
    first child [c] the preamble is followed by the render of [c] and,
    unless that failed, by the rest; a nil first child changes nothing.
    On [strings.Builder] a document of texts and nil entries gives the
    preamble followed by the escaped texts in order, once each: the
    document of [a], nil, the raw [<p>] and the text [<] gives
    [<!DOCTYPE html>a<p>&lt;]. *)
Theorem Document_writes_preamble_first
  (c : Node World) (cs : list (option (Node World))) (w : World) :
  render (Document cs) w
    = andThen (write Write "<!DOCTYPE html>") (render (Group cs)) w
  /\ render (Document cs) w
     = match Write "<!DOCTYPE html>" w with
       | (Some e, w1) => (Err e, w1)
       | (None, w1) => forEach (renderChild Write mapRange) (withoutNil cs) w1
       end
  /\ render (Document []) w = write Write "<!DOCTYPE html>" w
  /\ Render builderWrite rangeListed (Document []) "" = (Ok, "<!DOCTYPE html>")
  /\ render (Document (Some c :: cs)) w
     = match Write "<!DOCTYPE html>" w with
       | (Some e, w1) => (Err e, w1)
       | (None, w1) =>
           match render c w1 with
           | (Ok, w2) => render (Group cs) w2
           | failed => failed
           end
       end
  /\ render (Document (None :: cs)) w = render (Document cs) w
  /\ render (Document [Some c]) w
     = andThen (write Write "<!DOCTYPE html>") (render c) w
  /\ (forall (rg : gmap string string -> Builder -> list (string * string))
             (os : list (option string)) (buf : Builder),
        Render builderWrite rg (Document (List.map (option_map Text) os)) buf
        = (Ok, buf ++ "<!DOCTYPE html>"
                   ++ joined (List.map EscapeString (present os))))
  /\ Render builderWrite rangeListed
       (Document [Some (Text "a"); None; Some (Raw "<p>"); Some (Text "<")]) ""
     = (Ok, "<!DOCTYPE html>a<p>&lt;").
Proof.
  conjs; try reflexivity.
  - cbn [Render Document]. unfold andThen, write.
    destruct (Write "<!DOCTYPE html>" w) as [[e|] w1]; [reflexivity |].
    apply forEach_withoutNil.
  - apply andThen_done_r.
  - cbn [Render Document forEach]. unfold andThen, write.
    destruct (Write "<!DOCTYPE html>" w) as [[e|] w1]; [reflexivity |].
    destruct (render c w1) as [[] w2]; reflexivity.
  - cbn [Render Document forEach]. apply andThen_ext. intros w1.
    apply andThen_done_r.
  - intros rg os buf. cbn [Render Document]. unfold andThen at 1.
    unfold write, builderWrite.
    change (forEach _ (List.map (option_map Text) os) (buf ++ "<!DOCTYPE html>"))
      with (forEach (renderChild builderWrite rg)
              (List.map (option_map Text) os) (buf ++ "<!DOCTYPE html>")).
    rewrite forEach_texts_Builder. now rewrite append_assoc3.
Qed.

End Properties.

(** [lazy_nil_then_is_nothing_else_panics] on [strings.Builder], with a
    thunk that returns nil. *)
Lemma lazy_nil_on_Builder :
  Render builderWrite rangeListed
    (IfFunc true (Some (fun b : Builder => (None, b)))) "" = (Ok, "")
  /\ Render builderWrite rangeListed
       (IfElseFunc true (Some (fun b : Builder => (None, b))) None) ""
     = (Ok, "")
  /\ Render builderWrite rangeListed
       (IfElseFunc false None (Some (fun b : Builder => (None, b)))) ""
     = (Panic, "")
  /\ Render builderWrite rangeListed
       (IfElseFunc true None (Some (fun b : Builder => (None, b)))) ""
     = (Panic, "").
Proof.
  apply (lazy_nil_then_is_nothing_else_panics builderWrite rangeListed
           (fun b : Builder => (None, b)) None "" "").
  reflexivity.
Defined.

(** C4, as the claim words it, fails when the condition is true and
    [thenFn] is nil: the else thunk runs. *)
Lemma IfElseFunc_true_nil_then_runs_else :
  Render harnessWrite rangeListed
    (IfElseFunc true None (Some (probe "else" (Some (Text "e")))))
    (mkHarness "" 10 [])
  = (Ok, mkHarness "e" 9 ["else"]).
Proof. reflexivity. Qed.

(** C1, as the claim words it, fails on the double quote: the claim has
    [&quot;] written for it, [Text] writes [&#34;]. *)
Lemma Text_double_quote_is_not_quot :
  escapeAmpersandFirst (String dquote EmptyString) = "&quot;"
  /\ Render builderWrite rangeListed (Text (String dquote EmptyString)) ""
     = (Ok, "&#34;")
  /\ Render builderWrite rangeListed (Text (String dquote EmptyString)) ""
     <> write builderWrite (escapeAmpersandFirst (String dquote EmptyString)) "".
Proof.
  conjs; try reflexivity.
  vm_compute. discriminate.
Qed.

(** C2, on the code: [AttributeIf] with a false condition returns the
    tag as it was, and with a true condition and a value that is not
    empty it does what [Attribute] does; with a true condition and the
    empty value it stores the empty value under the key, where
    [Attribute], and [ClassIf] like every per-attribute conditional
    setter, leave the tag as it was.  On [strings.Builder] a new [div]
    then renders with an empty [x] attribute after [AttributeIf] and
    with none after [Attribute]. *)
Theorem AttributeIf_true_stores_the_empty_value
  (World : Type) (t : Tag World) (k v : string) (c : ascii) :
  AttributeIf false k v t = t
  /\ AttributeIf true k (String c v) t = Attribute k (String c v) t
  /\ Attribute k "" t = t
  /\ ClassIf true "" t = t
  /\ attributes (AttributeIf true k "" t) = <[k := ""]> (attributes t)
  /\ attributes (AttributeIf true k "" t) !! k = Some ""
  /\ Render builderWrite rangeListed
       (tag (AttributeIf true "x" "" (NewTag "div" false []))) ""
     = (Ok, "<div x=" ++ String dquote (String dquote "></div>"))
  /\ Render builderWrite rangeListed
       (tag (Attribute "x" "" (NewTag "div" false []))) ""
     = (Ok, "<div></div>").
Proof.
  conjs; try reflexivity.
  cbn. apply lookup_insert_eq.
Qed.

(** * More properties of the code *)

(** ** What [Text] writes *)

Lemma length_append (s1 s2 : string) :
  String.length (s1 ++ s2) = String.length s1 + String.length s2.
Proof.
  induction s1 as [|c s1 IH]; [reflexivity |].
  rewrite append_cons. cbn [String.length]. now rewrite IH.
Qed.

Lemma hasByte_app (p : ascii -> bool) (s1 s2 : string) :
  hasByte p (s1 ++ s2) = hasByte p s1 || hasByte p s2.
Proof.
  induction s1 as [|c s1 IH]; [reflexivity |].
  rewrite append_cons. cbn [hasByte]. now rewrite IH, orb_assoc.
Qed.

Lemma escapeByte_no_markup (c : ascii) :
  hasByte markupByte (escapeByte c) = false.
Proof.
  destruct c as [[] [] [] [] [] [] [] []]; vm_compute; reflexivity.
Qed.

Lemma escapeByte_longer (c : ascii) :
  escaped c = true -> 1 < String.length (escapeByte c).
Proof.
  destruct c as [[] [] [] [] [] [] [] []]; vm_compute; intros H;
    first [discriminate H | lia].
Qed.

Lemma escapeByte_positive (c : ascii) : 1 <= String.length (escapeByte c).
Proof.
  destruct c as [[] [] [] [] [] [] [] []]; vm_compute; lia.
Qed.

Lemma escapeByte_escaped (c : ascii) :
  escaped c = true -> hasByte escaped (escapeByte c) = true.
Proof.
  destruct c as [[] [] [] [] [] [] [] []]; vm_compute; intros H;
    first [discriminate H | reflexivity].
Qed.

Lemma EscapeString_length (s : string) :
  String.length s <= String.length (EscapeString s)
  /\ (hasByte escaped s = true -> String.length s < String.length (EscapeString s)).
Proof.
  induction s as [|c s [IHle IHlt]]; [split; [reflexivity | discriminate] |].
  cbn [EscapeString hasByte String.length]. rewrite length_append.
  pose proof (escapeByte_positive c) as Hpos.
  split; [lia |].
  intros H. apply orb_true_iff in H as [Hc | Hs].
  - pose proof (escapeByte_longer c Hc). lia.
  - specialize (IHlt Hs). lia.
Qed.

Lemma EscapeString_plain (s : string) :
  hasByte escaped s = false -> EscapeString s = s.
Proof.
  induction s as [|c s IH]; [reflexivity |].
  cbn [hasByte EscapeString]. intros H.
  apply orb_false_iff in H as [Hc Hs].
  now rewrite (escapeByte_other c Hc), IH.
Qed.

Lemma EscapeString_keeps_escaped (s : string) :
  hasByte escaped s = true -> hasByte escaped (EscapeString s) = true.
Proof.
  induction s as [|c s IH]; [discriminate |].
  cbn [hasByte EscapeString]. intros H. rewrite hasByte_app.
  apply orb_true_iff in H as [Hc | Hs]; apply orb_true_iff.
  - left. now apply escapeByte_escaped.
  - right. now apply IH.
Qed.

Lemma unescapeFive_escapeByte (c : ascii) (r : string) :
  unescapeFive (escapeByte c ++ r) = String c (unescapeFive r).
Proof.
  destruct c as [[] [] [] [] [] [] [] []]; reflexivity.
Qed.

Lemma unescapeFive_EscapeString (s : string) :
  unescapeFive (EscapeString s) = s.
Proof.
  induction s as [|c s IH]; [reflexivity |].
  cbn [EscapeString]. now rewrite unescapeFive_escapeByte, IH.
Qed.

(** X1: what [Text] writes holds no less-than, greater-than, double
    quote or apostrophe, whatever the content: on [strings.Builder] the
    output of [Text(s)] is a string with none of these four bytes. *)
Theorem Text_writes_no_markup_byte
  (s : string) (rg : gmap string string -> Builder -> list (string * string)) :
  hasByte markupByte (EscapeString s) = false
  /\ Render builderWrite rg (Text s) "" = (Ok, EscapeString s).
Proof.
  split; [| reflexivity].
  induction s as [|c s IH]; [reflexivity |].
  cbn [EscapeString]. now rewrite hasByte_app, escapeByte_no_markup, IH.
Qed.

(** X2: escaping loses nothing: some function reads every escaped
    string back to the content it came from, so two contents that
    differ are written differently by [Text]. *)
Theorem EscapeString_can_be_read_back :
  (exists unescape : string -> string,
     forall s, unescape (EscapeString s) = s)
  /\ (forall s1 s2, EscapeString s1 = EscapeString s2 -> s1 = s2).
Proof.
  split.
  - exists unescapeFive. apply unescapeFive_EscapeString.
  - intros s1 s2 H.
    rewrite <- (unescapeFive_EscapeString s1), <- (unescapeFive_EscapeString s2).
    now rewrite H.
Qed.

(** X3: [Text(s)] renders as [Raw] of the escaped content does, and
    the escaped content is [s] itself exactly when [s] holds none of the
    five escaped bytes; for the same strings, and only for them,
    escaping the escaped string again changes nothing. *)
Theorem Text_is_Raw_exactly_on_plain_strings (s : string) :
  (EscapeString s = s <-> hasByte escaped s = false)
  /\ (EscapeString (EscapeString s) = EscapeString s <-> hasByte escaped s = false)
  /\ (forall (World error : Type)
             (Write : string -> World -> option error * World)
             (mapRange : gmap string string -> World -> list (string * string))
             (w : World),
        Render Write mapRange (Text s) w
        = Render Write mapRange (Raw (EscapeString s)) w).
Proof.
  assert (Hfix : forall t, EscapeString t = t -> hasByte escaped t = false).
  { intros t Ht. destruct (hasByte escaped t) eqn:E; [| reflexivity].
    pose proof (proj2 (EscapeString_length t) E) as Hlt.
    rewrite Ht in Hlt. lia. }
  split; [split | split; [split |]].
  - apply Hfix.
  - apply EscapeString_plain.
  - intros H. apply Hfix in H.
    destruct (hasByte escaped s) eqn:E; [| reflexivity].
    now rewrite (EscapeString_keeps_escaped s E) in H.
  - intros H. now rewrite !(EscapeString_plain s H).
  - reflexivity.
Qed.

(** ** Where errors and panics come from *)

Section Outcomes.

Context {World error : Type}.
Variable Write : string -> World -> option error * World.
Variable mapRange : gmap string string -> World -> list (string * string).

Variable Q : error -> Prop.
Hypothesis Write_Q : forall s w e, fst (Write s w) = Some e -> Q e.

Lemma errorsIn_done : errorsIn (World := World) Q done_.
Proof. intros w e H. discriminate H. Qed.

Lemma errorsIn_write (s : string) : errorsIn Q (write Write s).
Proof.
  intros w e. unfold write. pose proof (Write_Q s w) as H.
  destruct (Write s w) as [[e'|] w1]; cbn in *; intros He;
    [injection He as <-; now apply H | discriminate He].
Qed.

Lemma errorsIn_andThen (c k : M World error) :
  errorsIn Q c -> errorsIn Q k -> errorsIn Q (andThen c k).
Proof.
  intros Hc Hk w e. unfold andThen. specialize (Hc w).
  destruct (c w) as [[| e' |] w1]; cbn in *; intros He.
  - now apply (Hk w1).
  - apply Hc. exact He.
  - discriminate He.
Qed.

Lemma errorsIn_forEach {A : Type} (body : A -> M World error) (xs : list A) :
  Forall (fun x => errorsIn Q (body x)) xs -> errorsIn Q (forEach body xs).
Proof.
  induction 1 as [|x xs Hx _ IH]; cbn [forEach].
  - apply errorsIn_done.
  - now apply errorsIn_andThen.
Qed.

Lemma errorsIn_children (cs : list (option (Node World))) :
  Forall (holdsOpt (fun n => errorsIn Q (Render Write mapRange n))) cs ->
  errorsIn Q (forEach (renderChild Write mapRange) cs).
Proof.
  intros H. apply errorsIn_forEach.
  induction H as [|[c|] cs Hc _ IH]; constructor; try assumption.
  apply errorsIn_done.
Qed.

Lemma errorsIn_call (th : Thunk World) (onNil : Outcome error) :
  (forall e, onNil <> Err e) ->
  (forall w, holdsOpt (fun n => errorsIn Q (Render Write mapRange n)) (fst (th w))) ->
  errorsIn Q (fun w =>
                match th w with
                | (Some node, w1) => Render Write mapRange node w1
                | (None, w1) => (onNil, w1)
                end).
Proof.
  intros Hnil H w e. specialize (H w).
  destruct (th w) as [[m|] w1]; cbn in *; intros He.
  - now apply (H w1).
  - now apply Hnil in He.
Qed.

Lemma Render_errorsIn (n : Node World) : errorsIn Q (Render Write mapRange n).
Proof.
  induction n using Node_induction; cbn [Render].
  - apply errorsIn_andThen; [apply errorsIn_write | now apply errorsIn_children].
  - apply errorsIn_write.
  - apply errorsIn_write.
  - destruct c; [| apply errorsIn_done].
    destruct t as [t|]; [assumption | intros w e He; discriminate He].
  - destruct c, f as [th|]; try apply errorsIn_done.
    apply errorsIn_call; [discriminate | assumption].
  - destruct c.
    + destruct t as [t|]; [assumption | intros w e' He; discriminate He].
    + destruct e as [e|]; [assumption | intros w e' He; discriminate He].
  - assert (Helse : errorsIn Q
              match g with
              | Some g0 =>
                  fun w => match g0 w with
                           | (Some node, w1) => Render Write mapRange node w1
                           | (None, w1) => (Panic, w1)
                           end
              | None => fun w => (Panic, w)
              end).
    { destruct g as [g0|]; [| intros w e He; discriminate He].
      apply errorsIn_call; [discriminate | assumption]. }
    destruct c, f as [th|]; try exact Helse.
    apply errorsIn_call; [discriminate | assumption].
  - apply errorsIn_forEach. apply Forall_forall. intros x _.
    destruct tr as [f|]; [| intros w e He; discriminate He].
    apply errorsIn_call; [discriminate | exact (H x)].
  - now apply errorsIn_children.
  - apply errorsIn_andThen; [apply errorsIn_write |].
    apply errorsIn_andThen.
    + intros w e0.
      apply (errorsIn_forEach (fun kv => write Write (attrFragment kv))
               (mapRange (attributes e) w)).
      apply Forall_forall. intros kv _. apply errorsIn_write.
    + destruct (isVoid e); [apply errorsIn_write |].
      apply errorsIn_andThen; [apply errorsIn_write |].
      apply errorsIn_andThen; [| apply errorsIn_write].
      now apply errorsIn_children.
Qed.

End Outcomes.

(** X4: the errors that [Render] returns are errors that a [Write] of
    the sink returned: a property that holds of every error the sink can
    return holds of every error a render returns, whatever the tree and
    its closures. *)
Theorem Render_returns_only_errors_of_Write
  (World error : Type)
  (Write : string -> World -> option error * World)
  (mapRange : gmap string string -> World -> list (string * string))
  (Q : error -> Prop) (n : Node World) (w : World) (e : error) :
  (forall s w0 e0, fst (Write s w0) = Some e0 -> Q e0) ->
  fst (Render Write mapRange n w) = Err e -> Q e.
Proof.
  intros HW He. exact (Render_errorsIn Write mapRange Q HW n w e He).
Qed.

(** [Render_returns_only_errors_of_Write] on the harness, for the [Map]
    whose second write has no room. *)
Lemma Render_error_on_Harness_is_short_write :
  fst (Render harnessWrite rangeListed
         (Map ["a"; "b"; "c"] (Some probeItem)) (mkHarness "" 1 []))
  = Err ErrShortWrite
  /\ ErrShortWrite = ErrShortWrite.
Proof.
  split; [reflexivity |].
  apply (Render_returns_only_errors_of_Write Harness WriteError harnessWrite
           rangeListed (fun e => e = ErrShortWrite)
           (Map ["a"; "b"; "c"] (Some probeItem)) (mkHarness "" 1 [])
           ErrShortWrite).
  - intros s w0 []. reflexivity.
  - reflexivity.
Defined.

Section Panics.

Context {World error : Type}.
Variable Write : string -> World -> option error * World.
Variable mapRange : gmap string string -> World -> list (string * string).

Local Abbreviation render := (Render Write mapRange).

Lemma safe_group_Forall (cs : list (option (Node World))) :
  safe (group cs) -> Forall safeChild cs.
Proof.
  induction cs as [|c cs IH]; intros H; constructor.
  - exact (proj1 H).
  - apply IH. exact (proj2 H).
Qed.

Lemma calm_done : calm (World := World) (error := error) done_.
Proof. intros w H. discriminate H. Qed.

Lemma calm_write (s : string) : calm (write Write s).
Proof.
  intros w. unfold write. destruct (Write s w) as [[e|] w1]; discriminate.
Qed.

Lemma calm_andThen (c k : M World error) :
  calm c -> calm k -> calm (andThen c k).
Proof.
  intros Hc Hk w. unfold andThen. specialize (Hc w).
  destruct (c w) as [[| e |] w1]; cbn in *.
  - apply Hk.
  - discriminate.
  - exact Hc.
Qed.

Lemma calm_forEach {A : Type} (body : A -> M World error) (xs : list A) :
  Forall (fun x => calm (body x)) xs -> calm (forEach body xs).
Proof.
  induction 1 as [|x xs Hx _ IH]; cbn [forEach].
  - apply calm_done.
  - now apply calm_andThen.
Qed.

Lemma calm_children (cs : list (option (Node World))) :
  Forall (holdsOpt (fun n => safe n -> calm (render n))) cs ->
  Forall safeChild cs ->
  calm (forEach (renderChild Write mapRange) cs).
Proof.
  intros H Hs. apply calm_forEach.
  induction H as [|[c|] cs Hc _ IH]; constructor;
    try (apply IH; now inversion Hs).
  - apply Hc. now inversion Hs.
  - apply calm_done.
Qed.

Lemma calm_call (th : Thunk World) (onNil : Outcome error) :
  (forall w, holdsOpt (fun n => safe n -> calm (render n)) (fst (th w))) ->
  (forall w, match th w with
             | (Some m, _) => safe m
             | (None, _) => onNil <> Panic
             end) ->
  calm (fun w =>
          match th w with
          | (Some node, w1) => render node w1
          | (None, w1) => (onNil, w1)
          end).
Proof.
  intros H Hs w. specialize (H w). specialize (Hs w).
  destruct (th w) as [[m|] w1]; cbn in *.
  - now apply H.
  - exact Hs.
Qed.

Lemma Render_calm (n : Node World) : safe n -> calm (render n).
Proof.
  induction n using Node_induction; cbn [Render]; intros Hs.
  - apply calm_andThen; [apply calm_write |].
    apply calm_children; [assumption | now apply safe_group_Forall].
  - apply calm_write.
  - apply calm_write.
  - destruct c; [| apply calm_done].
    destruct t as [t|]; [now apply H | destruct Hs].
  - destruct c, f as [th|]; try apply calm_done.
    apply calm_call; [assumption |].
    intros w. specialize (Hs w). cbn in Hs.
    destruct (th w) as [[m|] w1]; [assumption | discriminate].
  - cbn in Hs. destruct c.
    + destruct t as [t|]; [now apply H | destruct Hs].
    + destruct e as [e|]; [now apply H0 | destruct Hs].
  - assert (Helse :
      match g with
      | Some th =>
          forall w, match th w with (Some m, _) => safe m | (None, _) => False end
      | None => False
      end ->
      calm match g with
           | Some g0 =>
               fun w => match g0 w with
                        | (Some node, w1) => render node w1
                        | (None, w1) => (Panic, w1)
                        end
           | None => fun w => (Panic, w)
           end).
    { destruct g as [g0|]; [| intros []].
      intros Hg. apply calm_call; [assumption |].
      intros w. specialize (Hg w).
      destruct (g0 w) as [[m|] w1]; [assumption | destruct Hg]. }
    destruct c, f as [th|]; try (apply Helse; exact Hs).
    apply calm_call; [assumption |].
    intros w. specialize (Hs w). cbn in Hs.
    destruct (th w) as [[m|] w1]; [assumption | discriminate].
  - apply calm_forEach. apply Forall_forall. intros x Hx.
    apply list_elem_of_In in Hx.
    destruct items as [|i items]; [destruct Hx |].
    cbn in Hs. destruct tr as [f|]; [| destruct Hs].
    apply calm_call; [exact (H x) |].
    intros w. specialize (Hs x w Hx).
    destruct (f x w) as [[m|] w1]; [assumption | destruct Hs].
  - apply calm_children; [assumption | now apply safe_group_Forall].
  - apply calm_andThen; [apply calm_write |].
    apply calm_andThen.
    + intros w.
      apply (calm_forEach (fun kv => write Write (attrFragment kv))
               (mapRange (attributes e) w)).
      apply Forall_forall. intros kv _. apply calm_write.
    + cbn in Hs. destruct (isVoid e); [apply calm_write |].
      apply calm_andThen; [apply calm_write |].
      apply calm_andThen; [| apply calm_write].
      apply calm_children; [assumption | now apply safe_group_Forall].
Qed.


End Panics.


(** ** Setters *)

Lemma Attribute_nonempty {World : Type} (k v : string) (t : Tag World) :
  v <> "" ->
  Attribute k v t
  = mkTag (name t) (isVoid t) (children t) (<[k := v]> (attributes t)).
Proof.
  intros Hv. unfold Attribute.
  destruct (String.eqb_spec v "") as [|_]; [contradiction | reflexivity].
Qed.

Lemma Attribute_cases {World : Type} (k v : string) (t : Tag World) :
  Attribute k v t = t
  \/ Attribute k v t
     = mkTag (name t) (isVoid t) (children t) (<[k := v]> (attributes t)).
Proof.
  unfold Attribute. destruct (String.eqb v ""); [left | right]; reflexivity.
Qed.

(** Every entry of the map is met exactly once by a range over it. *)
Lemma range_entries_of_key {World : Type}
  (mapRange : gmap string string -> World -> list (string * string))
  (m : gmap string string) (k : string) (w : World) :
  (forall m0 w0, mapRange m0 w0 ≡ₚ map_to_list m0) ->
  filter (λ kv, kv.1 = k) (mapRange m w)
  = match m !! k with
    | Some v => [(k, v)]
    | None => []
    end.
Proof.
  intros Hperm. destruct (m !! k) as [v|] eqn:E.
  - apply filter_key_NoDup.
    + rewrite (Hperm m w). apply NoDup_fst_map_to_list.
    + rewrite (Hperm m w). now apply elem_of_map_to_list.
  - apply filter_key_absent. rewrite (Hperm m w). intros Hin.
    apply list_elem_of_fmap in Hin as [[k1 v1] [Hk Hin]]. cbn in Hk. subst k1.
    apply elem_of_map_to_list in Hin. congruence.
Qed.

Section Setters.

Context {World error : Type}.
Variable Write : string -> World -> option error * World.
Variable mapRange : gmap string string -> World -> list (string * string).

Local Abbreviation render := (Render Write mapRange).

(** X6: two [Attribute] calls on different keys give the same tag in
    either order, and a call repeated with the same key and value
    changes nothing more. *)
Theorem Attribute_calls_commute
  (t : Tag World) (k1 k2 v1 v2 : string) :
  k1 <> k2 ->
  Attribute k1 v1 (Attribute k2 v2 t) = Attribute k2 v2 (Attribute k1 v1 t)
  /\ Attribute k1 v1 (Attribute k1 v1 t) = Attribute k1 v1 t.
Proof.
  intros Hne. unfold Attribute. split.
  - destruct (String.eqb v1 ""), (String.eqb v2 ""); cbn; try reflexivity.
    f_equal. now apply insert_insert_ne.
  - destruct (String.eqb v1 ""); cbn; [reflexivity |].
    f_equal. apply insert_insert_eq.
Qed.

(** X7: no setter removes or renames anything: [Attribute],
    [AttributeIf], [Class] and [ClassIf] keep the name, the void flag
    and the children of the tag, keep every attribute of another key as
    it was, and leave every key that was set still set; in particular
    [Attribute] with the empty value does not clear the value its key
    had. *)
Theorem setters_keep_the_rest
  (t : Tag World) (c : bool) (k v : string) (vs : list string) :
  let after := [Attribute k v t; AttributeIf c k v t; Class vs t; ClassIf c v t] in
  Forall (fun t' =>
            name t' = name t /\ isVoid t' = isVoid t /\ children t' = children t
            /\ dom (attributes t) ⊆ dom (attributes t')) after
  /\ (forall k', k' <> k ->
        attributes (Attribute k v t) !! k' = attributes t !! k'
        /\ attributes (AttributeIf c k v t) !! k' = attributes t !! k')
  /\ attributes (Attribute k "" t) !! k = attributes t !! k.
Proof.
  assert (HA : forall k0 v0,
             name (Attribute k0 v0 t) = name t
             /\ isVoid (Attribute k0 v0 t) = isVoid t
             /\ children (Attribute k0 v0 t) = children t
             /\ dom (attributes t) ⊆ dom (attributes (Attribute k0 v0 t))).
  { intros k0 v0. destruct (Attribute_cases k0 v0 t) as [-> | ->]; cbn.
    - repeat split; reflexivity.
    - repeat split; try reflexivity. apply dom_insert_subseteq. }
  cbn zeta. split; [| split].
  - repeat constructor; try apply HA.
    + destruct c; reflexivity.
    + destruct c; reflexivity.
    + destruct c; reflexivity.
    + destruct c; cbn; [apply dom_insert_subseteq | reflexivity].
    + unfold ClassIf. destruct c; [apply HA | reflexivity].
    + unfold ClassIf. destruct c; [apply HA | reflexivity].
    + unfold ClassIf. destruct c; [apply HA | reflexivity].
    + unfold ClassIf. destruct c; [apply HA | reflexivity].
  - intros k' Hne. split.
    + destruct (Attribute_cases k v t) as [-> | ->]; [reflexivity |].
      cbn. now apply lookup_insert_ne.
    + destruct c; [| reflexivity]. cbn. now apply lookup_insert_ne.
  - reflexivity.
Qed.

(** X8: [Children] replaces the children, it does not append: a second
    call drops what the first gave, the attributes stay, and a call of
    [Children] and a call of [Attribute] give the same tag in either
    order. *)
Theorem Children_replaces
  (t : Tag World) (cs1 cs2 : list (option (Node World))) (k v : string) :
  Children cs2 (Children cs1 t) = Children cs2 t
  /\ children (Children cs2 t) = cs2
  /\ attributes (Children cs2 t) = attributes t
  /\ Children cs2 (Attribute k v t) = Attribute k v (Children cs2 t)
  /\ Children cs2 (NewTag (name t) (isVoid t) cs1) = NewTag (name t) (isVoid t) cs2.
Proof.
  conjs; try reflexivity.
  unfold Attribute. destruct (String.eqb v ""); reflexivity.
Qed.

End Setters.

(** [Attribute_calls_commute] for [id] and [class] on a new [div]. *)
Lemma Attribute_id_then_class_on_div :
  Attribute "id" "main" (Attribute "class" "dark" (NewTag (World := Builder) "div" false []))
  = Attribute "class" "dark" (Attribute "id" "main" (NewTag "div" false []))
  /\ Attribute "id" "main" (Attribute "id" "main" (NewTag (World := Builder) "div" false []))
     = Attribute "id" "main" (NewTag "div" false []).
Proof.
  apply (Attribute_calls_commute (NewTag (World := Builder) "div" false [])
           "id" "class" "main" "dark").
  discriminate.
Defined.

Lemma append_nil_l (s : string) : "" ++ s = s.
Proof. reflexivity. Qed.

(** Brings both sides of an equation between appended strings to the
    same right-nested form. *)
Ltac strings :=
  unfold attrFragments, joined;
  cbn [List.map fold_right];
  unfold attrFragment;
  cbn [fst snd];
  repeat (rewrite ?append_assoc3, ?append_cons, ?append_nil_l, ?append_nil_r);
  reflexivity.

Lemma append_not_empty (s r : string) (c : ascii) : s ++ String c r <> "".
Proof. destruct s; discriminate. Qed.

Lemma Render_void_tag_Builder
  (rg : gmap string string -> Builder -> list (string * string))
  (nm : string) (attrs : gmap string string)
  (cs : list (option (Node Builder))) (b : Builder) :
  Render builderWrite rg (tag (mkTag nm true cs attrs)) b
  = (Ok, b ++ ("<" ++ nm) ++ attrFragments (rg attrs (b ++ "<" ++ nm)) ++ "/>").
Proof.
  cbn [Render name isVoid attributes].
  unfold andThen at 1. unfold write at 1. unfold builderWrite at 1.
  unfold andThen at 1. rewrite forEach_write_Builder.
  unfold write, builderWrite, attrFragments. now rewrite !append_assoc3.
Qed.

(** X10: [Class] stores its values joined by one space: with no value
    it leaves the tag as it was, with one value it is [Attribute] of
    [class] and that value, and with two values or more it always
    stores the joined string, also when every value is empty; a later
    [Class] replaces the classes of an earlier one, it does not add to
    them. *)
Theorem Class_joins_and_replaces
  (World : Type) (t : Tag World) (v v1 v2 : string) (vs earlier : list string) :
  Class [] t = t
  /\ Class [v] t = Attribute "class" v t
  /\ Class (v1 :: v2 :: vs) t
     = mkTag (name t) (isVoid t) (children t)
         (<["class" := v1 ++ " " ++ Join (v2 :: vs) " "]> (attributes t))
  /\ attributes (Class (v1 :: v2 :: vs) (Class earlier t))
     = attributes (Class (v1 :: v2 :: vs) t)
  /\ attributes (Class [""; ""] t) !! "class" = Some " ".
Proof.
  assert (H3 : forall t0 : Tag World,
             Class (v1 :: v2 :: vs) t0
             = mkTag (name t0) (isVoid t0) (children t0)
                 (<["class" := v1 ++ " " ++ Join (v2 :: vs) " "]> (attributes t0))).
  { intros t0. unfold Class.
    change (Join (v1 :: v2 :: vs) " ") with (v1 ++ " " ++ Join (v2 :: vs) " ").
    apply Attribute_nonempty. apply append_not_empty. }
  conjs; try reflexivity.
  - apply H3.
  - rewrite !H3. cbn [attributes]. unfold Class.
    destruct (Attribute_cases "class" (Join earlier " ") t) as [-> | ->];
      [reflexivity |].
    cbn [attributes]. apply insert_insert_eq.
  - cbn. apply lookup_insert_eq.
Qed.

(** X11: [input.NameIf] and [input.IdIf] do not read their condition:
    with a false condition they set the attribute as [input.Name] and
    [input.Id] of the one value do, so [Input().NameIf(false, v)] with
    [v] not empty has the one attribute [name] and renders it. *)
Theorem input_NameIf_sets_whatever_the_condition
  (World : Type) (e : Tag World) (c : bool) (v : string) (a : ascii)
  (cs : list (option (Node Builder))) :
  input.NameIf c v e = input.Name [v] e
  /\ input.IdIf c v e = input.Id [v] e
  /\ attributes (input.NameIf false (String a v) (Input cs))
     = {["name" := String a v]}
  /\ Render builderWrite rangeListed
       (tag (input.NameIf false (String a v) (Input cs))) ""
     = (Ok, "<input name=" ++ String dquote (String a v ++ String dquote "/>")).
Proof.
  conjs; try reflexivity.
  change (input.NameIf false (String a v) (Input cs))
    with (mkTag (N := Node Builder) "input" true cs (<["name" := String a v]> ∅)).
  rewrite Render_void_tag_Builder. unfold rangeListed.
  rewrite insert_empty, map_to_list_singleton. f_equal. strings.
Qed.

(** X12: [script.SrcIf] stores its value under [Src], not under [src]:
    it never changes what [script.Src] stored, and after [Src] then
    [SrcIf] with a true condition the tag has both attributes. *)
Theorem script_SrcIf_sets_another_key
  (World : Type) (t : Tag World) (c : bool) (va vb : string) (a b : ascii) :
  attributes (script.SrcIf c vb (script.Src va t)) !! "src"
    = attributes (script.Src va t) !! "src"
  /\ attributes (script.SrcIf true (String b vb) (script.Src (String a va) t)) !! "src"
     = Some (String a va)
  /\ attributes (script.SrcIf true (String b vb) (script.Src (String a va) t)) !! "Src"
     = Some (String b vb)
  /\ script.SrcIf false vb t = t.
Proof.
  conjs; try reflexivity.
  - unfold script.SrcIf. destruct c; [| reflexivity].
    destruct (Attribute_cases "Src" vb (script.Src va t)) as [-> | ->];
      [reflexivity |].
    cbn [attributes]. now apply lookup_insert_ne.
  - cbn. rewrite lookup_insert_ne by discriminate. apply lookup_insert_eq.
  - cbn. apply lookup_insert_eq.
Qed.

(** X13: [Tag.Render] writes an attribute value as it is, between double
    quotes, with no escaping: on [strings.Builder] a new tag with one
    attribute of a value that is not empty renders the open fragment,
    the key, the value verbatim and the end of the tag. *)
Theorem attribute_value_is_written_verbatim
  (nm k v : string) (a : ascii) (cs : list (option (Node Builder))) (b : Builder) :
  Render builderWrite rangeListed
    (tag (Attribute k (String a v) (NewTag nm true cs))) b
  = (Ok, b ++ "<" ++ nm ++ " " ++ k ++ "="
            ++ String dquote (String a v ++ String dquote "/>"))
  /\ Render builderWrite rangeListed
       (tag (Attribute k (String a v) (NewTag nm false []))) b
     = (Ok, b ++ "<" ++ nm ++ " " ++ k ++ "="
               ++ String dquote (String a v ++ String dquote (">" ++ "</" ++ nm ++ ">"))).
Proof.
  split.
  - change (Attribute k (String a v) (NewTag nm true cs))
      with (mkTag (N := Node Builder) nm true cs (<[k := String a v]> ∅)).
    rewrite Render_void_tag_Builder. unfold rangeListed.
    rewrite insert_empty, map_to_list_singleton. f_equal. strings.
  - change (Attribute k (String a v) (NewTag nm false []))
      with (mkTag (N := Node Builder) nm false [] (<[k := String a v]> ∅)).
    cbn [Render name isVoid attributes children forEach].
    unfold andThen at 1. unfold write at 1. unfold builderWrite at 1.
    unfold andThen at 1. rewrite forEach_write_Builder.
    unfold rangeListed. rewrite insert_empty, map_to_list_singleton.
    unfold andThen, write, builderWrite. f_equal. strings.
Qed.

(** ** Combinators *)

Section Combinators.

Context {World error : Type}.
Variable Write : string -> World -> option error * World.
Variable mapRange : gmap string string -> World -> list (string * string).

Local Abbreviation render := (Render Write mapRange).

(** X14: a [Group] renders as its parts one after the other: the empty
    group writes nothing, the group of one node renders as the node,
    the group of [xs ++ ys] as the group of [xs] followed, unless it
    failed, by the group of [ys], a group nested first in a group as if
    its children stood there themselves; and a non-void tag renders its
    children, between [>] and the closing tag, as their group. *)
Theorem Group_renders_as_its_parts
  (n : Node World) (xs ys : list (option (Node World)))
  (nm : string) (attrs : gmap string string) (w : World) :
  render (Group []) w = (Ok, w)
  /\ render (Group [Some n]) w = render n w
  /\ render (Group (xs ++ ys)%list) w
     = andThen (render (Group xs)) (render (Group ys)) w
  /\ render (Group (Some (Group xs) :: ys)) w = render (Group (xs ++ ys)%list) w
  /\ render (tag (mkTag nm false xs attrs)) w
     = andThen (write Write ("<" ++ nm))
         (andThen (renderAttributes Write mapRange attrs)
            (andThen (write Write ">")
               (andThen (render (Group xs)) (write Write ("</" ++ nm ++ ">"))))) w.
Proof.
  conjs; try reflexivity.
  - apply andThen_done_r.
  - apply forEach_app.
  - symmetry. apply forEach_app.
Qed.

(** X15: [If] and [IfElse] render the branch the condition selects and
    do not look at the other: [If] with a false condition writes
    nothing and returns nil whatever its node is, nil included,
    [IfElse] renders as the selected node does even when the other one
    is nil, and [If] is [IfElse] with the empty group for the else
    branch. *)
Theorem eager_conditionals_render_the_selected_branch
  (a b : Node World) (t e : option (Node World)) (c : bool) (w : World) :
  render (If false t) w = (Ok, w)
  /\ render (If true (Some a)) w = render a w
  /\ render (IfElse c (Some a) (Some b)) w = render (if c then a else b) w
  /\ render (IfElse true (Some a) e) w = render a w
  /\ render (IfElse false t (Some b)) w = render b w
  /\ render (If c (Some a)) w = render (IfElse c (Some a) (Some (Group []))) w.
Proof.
  conjs; try reflexivity; destruct c; reflexivity.
Qed.

(** X16: a lazy conditional whose thunks only build a node renders as
    the eager conditional of these nodes, for both values of the
    condition; and [IfFunc] with a nil [thenFn] writes nothing and
    returns nil, for both values too. *)
Theorem lazy_conditionals_agree_with_eager
  (a b : Node World) (c : bool) (w : World) :
  render (IfFunc c (Some (fun w0 => (Some a, w0)))) w = render (If c (Some a)) w
  /\ render (IfElseFunc c (Some (fun w0 => (Some a, w0)))
                          (Some (fun w0 => (Some b, w0)))) w
     = render (IfElse c (Some a) (Some b)) w
  /\ render (IfFunc c None) w = (Ok, w).
Proof.
  conjs; destruct c; reflexivity.
Qed.

(** X17: a [Map] whose transform only builds a node renders as the
    [Group] of the nodes built from the items, in item order; a [Map]
    over no item returns nil even with a nil transform, and over an
    item with a nil transform it panics before any write. *)
Theorem Map_is_the_Group_of_the_built_nodes
  (T : Type) (build : T -> Node World) (x : T) (xs : list T) (w : World) :
  render (Map xs (Some (fun item w0 => (Some (build item), w0)))) w
    = render (Group (List.map (fun item => Some (build item)) xs)) w
  /\ render (Map (T := T) [] None) w = (Ok, w)
  /\ render (Map (x :: xs) None) w = (Panic, w).
Proof.
  conjs; try reflexivity.
  revert w. induction xs as [|y ys IH]; intros w; [reflexivity |].
  cbn [Render Map Group List.map forEach] in *.
  apply andThen_ext. exact IH.
Qed.

End Combinators.

(** ** A write that fails *)

Lemma length_cons (c : ascii) (s : string) :
  String.length (String c s) = S (String.length s).
Proof. reflexivity. Qed.

(** X18: [Tag.Render] stops at the first write that fails and takes
    nothing back: on a writer with room for the open fragment of a new
    non-void tag and not for one byte more, the open fragment is
    written, the error of the next write is returned, and neither a
    child nor the closing tag is rendered. *)
Theorem Tag_render_stops_at_the_failed_write
  (nm : string) (cs : list (option (Node Harness))) (h : Harness) :
  room h = S (String.length nm) ->
  Render harnessWrite rangeListed (tag (NewTag nm false cs)) h
  = (Err ErrShortWrite, mkHarness (out h ++ "<" ++ nm) 0 (calls h)).
Proof.
  intros Hroom. cbn [Render NewTag name isVoid attributes children].
  unfold andThen at 1. unfold write at 1. unfold harnessWrite at 1.
  rewrite append_cons, append_nil_l, length_cons, Hroom, Nat.leb_refl, Nat.sub_diag.
  unfold andThen at 1. unfold rangeListed at 1.
  rewrite map_to_list_empty. cbn [forEach]. unfold done_.
  unfold andThen, write, harnessWrite. cbn. reflexivity.
Qed.

(** [Tag_render_stops_at_the_failed_write] for a [div] with a child, on a
    writer with room for four bytes. *)
Lemma div_on_a_writer_with_room_for_four :
  Render harnessWrite rangeListed
    (tag (NewTag "div" false [Some (Text "never")])) (mkHarness "" 4 [])
  = (Err ErrShortWrite, mkHarness ("" ++ "<" ++ "div") 0 []).
Proof.
  apply (Tag_render_stops_at_the_failed_write "div" [Some (Text "never")]
           (mkHarness "" 4 [])).
  reflexivity.
Defined.

(** ** Texts side by side *)

Lemma escapeByte_at_most_five (c : ascii) : String.length (escapeByte c) <= 5.
Proof.
  destruct c as [[] [] [] [] [] [] [] []]; vm_compute; lia.
Qed.

(** X19: escaping is byte by byte, so a content cut in two renders the
    same: on [strings.Builder] the group of [Text(s1)] and [Text(s2)]
    gives the output of [Text] of [s1] followed by [s2], and likewise
    for [Raw]. *)
Theorem Text_of_an_append_is_the_texts_side_by_side
  (s1 s2 : string)
  (rg : gmap string string -> Builder -> list (string * string)) (b : Builder) :
  Render builderWrite rg (Group [Some (Text s1); Some (Text s2)]) b
    = Render builderWrite rg (Text (s1 ++ s2)) b
  /\ Render builderWrite rg (Group [Some (Raw s1); Some (Raw s2)]) b
     = Render builderWrite rg (Raw (s1 ++ s2)) b
  /\ EscapeString (s1 ++ s2) = EscapeString s1 ++ EscapeString s2.
Proof.
  conjs.
  - cbn. unfold andThen, write, builderWrite, done_.
    now rewrite EscapeString_app, append_assoc3.
  - cbn. unfold andThen, write, builderWrite, done_.
    now rewrite append_assoc3.
  - apply EscapeString_app.
Qed.

(** X20: what [Text] writes is at least as long as the content and at
    most five times as long. *)
Theorem EscapeString_length_bounds (s : string) :
  String.length s <= String.length (EscapeString s)
  /\ String.length (EscapeString s) <= 5 * String.length s.
Proof.
  split; [apply EscapeString_length |].
  induction s as [|c s IH]; [reflexivity |].
  cbn [EscapeString String.length]. rewrite length_append.
  pose proof (escapeByte_at_most_five c). lia.
Qed.

(** ** The attribute loop on [strings.Builder] *)

Lemma joined_app (l1 l2 : list string) :
  joined (l1 ++ l2)%list = joined l1 ++ joined l2.
Proof.
  induction l1 as [|x l1 IH]; [reflexivity |].
  cbn [joined fold_right app]. fold (joined (l1 ++ l2)%list). fold (joined l1).
  now rewrite IH, append_assoc3.
Qed.

Lemma attrFragments_split (pre post : list (string * string)) (kv : string * string) :
  attrFragments (pre ++ kv :: post)%list
  = attrFragments pre ++ attrFragment kv ++ attrFragments post.
Proof.
  unfold attrFragments. rewrite map_app, joined_app. reflexivity.
Qed.

(** A range over a map that holds [v] for [k] meets the entry of [k]
    once, between entries of other keys. *)
Lemma range_split {W : Type}
  (rg : gmap string string -> W -> list (string * string))
  (m : gmap string string) (k v : string) (w : W) :
  (forall m0 w0, rg m0 w0 ≡ₚ map_to_list m0) ->
  m !! k = Some v ->
  exists pre post,
    rg m w = (pre ++ (k, v) :: post)%list /\ (k ∉ pre.*1) /\ (k ∉ post.*1).
Proof.
  intros Hperm Hk.
  assert (Hin : (k, v) ∈ rg m w).
  { rewrite (Hperm m w). now apply elem_of_map_to_list. }
  assert (Hnd : NoDup (rg m w).*1).
  { rewrite (Hperm m w). apply NoDup_fst_map_to_list. }
  apply list_elem_of_split in Hin as (pre & post & Heq).
  exists pre, post. rewrite Heq in Hnd |- *.
  rewrite fmap_app, fmap_cons in Hnd. cbn in Hnd.
  apply NoDup_app in Hnd as (_ & Hpre & Hpost).
  apply NoDup_cons in Hpost as [Hpost _].
  split; [reflexivity | split; [| exact Hpost]].
  intros Hk'. apply (Hpre k Hk'). apply elem_of_cons. now left.
Qed.

(** What [Tag.Render] appends to a [strings.Builder]: the open fragment
    and the attribute fragments, then [/>], or [>], the children and
    the closing tag. *)
Lemma Render_tag_Builder
  (rg : gmap string string -> Builder -> list (string * string))
  (e : Tag Builder) (b : Builder) :
  Render builderWrite rg (tag e) b
  = if isVoid e
    then (Ok, b ++ "<" ++ name e
                ++ attrFragments (rg (attributes e) (b ++ "<" ++ name e)) ++ "/>")
    else
      match Render builderWrite rg (Group (children e))
              (b ++ "<" ++ name e
                 ++ attrFragments (rg (attributes e) (b ++ "<" ++ name e)) ++ ">")
      with
      | (Ok, b2) => (Ok, b2 ++ "</" ++ name e ++ ">")
      | failed => failed
      end.
Proof.
  cbn [Render Group].
  unfold andThen at 1. unfold write at 1. unfold builderWrite at 1.
  unfold andThen at 1. rewrite forEach_write_Builder.
  fold (attrFragments (rg (attributes e) (b ++ "<" ++ name e))).
  destruct (isVoid e).
  - unfold write, builderWrite. f_equal. now rewrite !append_assoc3.
  - unfold andThen at 1. unfold write at 1. unfold builderWrite at 1.
    replace ((b ++ "<" ++ name e)
               ++ attrFragments (rg (attributes e) (b ++ "<" ++ name e)) ++ ">")
      with (b ++ "<" ++ name e
              ++ attrFragments (rg (attributes e) (b ++ "<" ++ name e)) ++ ">")
      by (now rewrite !append_assoc3).
    replace (((b ++ "<" ++ name e)
               ++ attrFragments (rg (attributes e) (b ++ "<" ++ name e))) ++ ">")
      with (b ++ "<" ++ name e
              ++ attrFragments (rg (attributes e) (b ++ "<" ++ name e)) ++ ">")
      by (now rewrite !append_assoc3).
    unfold andThen.
    destruct (forEach _ (children e) _) as [[] b2]; try reflexivity.
Qed.

Section LastWrite.

Context {World error : Type}.
Variable Write : string -> World -> option error * World.
Variable mapRange : gmap string string -> World -> list (string * string).

Local Abbreviation render := (Render Write mapRange).

(** C9, amended: [Attribute(k, empty)] returns the tag as it was, so
    the tag renders as before the call: the entries of key [k] that the
    attribute loop meets are the one the map held for [k], or none when
    it held none, and a new tag writes no attribute at all.  After
    [Attribute(k, a)] then [Attribute(k, b)], with [a] and [b] not
    empty, the map holds [b] for [k] and the attribute loop, in
    whatever order the runtime ranges over the map, meets exactly one
    entry of key [k], the one of value [b].  On [strings.Builder], for
    every tag, what is appended is the open fragment, the fragments of
    the entries met before, the one fragment of [k] with the value [b],
    the fragments of the entries met after, none of them of key [k],
    and the end of the tag; a new tag [nm] renders [<nm k="b"></nm>]
    after the two calls, and [<nm></nm>] or [<nm/>] after
    [Attribute(k, empty)]. *)
Theorem Attribute_empty_is_noop_last_write_wins
  (t : Tag World) (nm k a b : string) (void : bool)
  (cs : list (option (Node World))) (w : World) :
  (forall m w0, mapRange m w0 ≡ₚ map_to_list m) ->
  a <> "" -> b <> "" ->
  Attribute k "" t = t
  /\ filter (λ kv, kv.1 = k) (mapRange (attributes (Attribute k "" t)) w)
     = match attributes t !! k with
       | Some v => [(k, v)]
       | None => []
       end
  /\ renderAttributes Write mapRange
       (attributes (Attribute k "" (NewTag nm void cs))) w = (Ok, w)
  /\ attributes (Attribute k b (Attribute k a t)) = <[k := b]> (attributes t)
  /\ filter (λ kv, kv.1 = k)
       (mapRange (attributes (Attribute k b (Attribute k a t))) w)
     = [(k, b)]
  /\ render (tag (Attribute k b (Attribute k a (NewTag nm false [])))) w
     = andThen (write Write ("<" ++ nm))
         (andThen (write Write (" " ++ k ++ "=" ++ String dquote (b ++ String dquote "")))
            (andThen (write Write ">") (write Write ("</" ++ nm ++ ">")))) w
  /\ (forall (rg : gmap string string -> Builder -> list (string * string))
             (bt : Tag Builder) (buf : Builder),
        (forall m w0, rg m w0 ≡ₚ map_to_list m) ->
        exists pre post,
          rg (attributes (Attribute k b (Attribute k a bt))) (buf ++ "<" ++ name bt)
          = (pre ++ (k, b) :: post)%list
          /\ (k ∉ pre.*1) /\ (k ∉ post.*1)
          /\ Render builderWrite rg (tag (Attribute k b (Attribute k a bt))) buf
             = if isVoid bt
               then (Ok, buf ++ "<" ++ name bt
                           ++ attrFragments pre
                           ++ (" " ++ k ++ "=" ++ String dquote (b ++ String dquote ""))
                           ++ attrFragments post ++ "/>")
               else
                 match Render builderWrite rg (Group (children bt))
                         (buf ++ "<" ++ name bt
                              ++ attrFragments pre
                              ++ (" " ++ k ++ "=" ++ String dquote (b ++ String dquote ""))
                              ++ attrFragments post ++ ">")
                 with
                 | (Ok, b2) => (Ok, b2 ++ "</" ++ name bt ++ ">")
                 | failed => failed
                 end)
  /\ (forall (rg : gmap string string -> Builder -> list (string * string))
             (buf : Builder),
        (forall m w0, rg m w0 ≡ₚ map_to_list m) ->
        Render builderWrite rg
          (tag (Attribute k b (Attribute k a (NewTag nm false [])))) buf
        = (Ok, buf ++ "<" ++ nm ++ " " ++ k ++ "="
                   ++ String dquote (b ++ String dquote (">" ++ "</" ++ nm ++ ">")))
        /\ Render builderWrite rg (tag (Attribute k "" (NewTag nm false []))) buf
           = (Ok, buf ++ "<" ++ nm ++ ">" ++ "</" ++ nm ++ ">")
        /\ Render builderWrite rg (tag (Attribute k "" (NewTag nm true []))) buf
           = (Ok, buf ++ "<" ++ nm ++ "/>")).
Proof.
  intros Hperm Ha Hb.
  assert (Hshape : forall (W : Type) (t0 : Tag W),
             Attribute k b (Attribute k a t0)
             = mkTag (name t0) (isVoid t0) (children t0) (<[k := b]> (attributes t0))).
  { intros W t0. rewrite (Attribute_nonempty k b _ Hb), (Attribute_nonempty k a _ Ha).
    cbn [name isVoid children attributes]. f_equal. apply insert_insert_eq. }
  conjs.
  - reflexivity.
  - now apply range_entries_of_key.
  - unfold renderAttributes. cbn.
    pose proof (Hperm ∅ w) as H. rewrite map_to_list_empty in H.
    apply Permutation_nil_r in H. now rewrite H.
  - now rewrite Hshape.
  - rewrite Hshape. cbn [attributes].
    rewrite (range_entries_of_key mapRange _ k w Hperm).
    now rewrite lookup_insert_eq.
  - rewrite Hshape. cbn [NewTag Render name isVoid attributes children forEach].
    apply andThen_ext. intros w1.
    unfold andThen at 1 3.
    pose proof (Hperm (<[k := b]> ∅) w1) as H.
    rewrite insert_empty, map_to_list_singleton in H.
    apply Permutation_singleton_r in H. rewrite insert_empty, H.
    rewrite forEach_singleton. reflexivity.
  - intros rg bt buf Hrg. rewrite Hshape.
    destruct (range_split rg (<[k := b]> (attributes bt)) k b (buf ++ "<" ++ name bt)
                Hrg (lookup_insert_eq _ _ _)) as (pre & post & Heq & Hpre & Hpost).
    exists pre, post. cbn [attributes]. split; [exact Heq |].
    split; [exact Hpre | split; [exact Hpost |]].
    rewrite Render_tag_Builder. cbn [name isVoid attributes children].
    rewrite Heq, attrFragments_split. unfold attrFragment at 1 2. cbn [fst snd].
    now rewrite !append_assoc3.
  - intros rg buf Hrg.
    assert (Hempty : forall w0, rg ∅ w0 = []).
    { intros w0. pose proof (Hrg ∅ w0) as H. rewrite map_to_list_empty in H.
      now apply Permutation_nil_r in H. }
    assert (Hone : forall w0, rg {[k := b]} w0 = [(k, b)]).
    { intros w0. pose proof (Hrg {[k := b]} w0) as H.
      rewrite map_to_list_singleton in H. now apply Permutation_singleton_r in H. }
    conjs.
    + rewrite Hshape, Render_tag_Builder.
      cbn [NewTag name isVoid attributes children Render Group forEach].
      rewrite insert_empty, Hone. unfold done_. f_equal; strings.
    + change (Attribute k "" (NewTag (World := Builder) nm false []))
        with (NewTag (World := Builder) nm false []).
      rewrite Render_tag_Builder.
      cbn [NewTag name isVoid attributes children Render Group forEach].
      rewrite Hempty. unfold done_. f_equal; strings.
    + change (Attribute k "" (NewTag (World := Builder) nm true []))
        with (NewTag (World := Builder) nm true []).
      rewrite Render_tag_Builder.
      cbn [NewTag name isVoid attributes children].
      rewrite Hempty. f_equal; strings.
Qed.

End LastWrite.

(** [Attribute_empty_is_noop_last_write_wins] on [strings.Builder], for
    [x] set to [a] then to [b] on a new tag [t], and for [x] set to the
    empty value on a new tag [t]. *)
Lemma Attribute_twice_on_Builder :
  Render builderWrite rangeListed
    (tag (Attribute "x" "b" (Attribute "x" "a" (NewTag "t" false [])))) ""
  = (Ok, "<t x=" ++ String dquote ("b" ++ String dquote "></t>"))
  /\ Render builderWrite rangeListed (tag (Attribute "x" "" (NewTag "t" false []))) ""
     = (Ok, "<t></t>").
Proof.
  destruct (Attribute_empty_is_noop_last_write_wins builderWrite rangeListed
              (NewTag "t" false []) "t" "x" "a" "b" false [] ""
              (fun m w0 => reflexivity _)
              ltac:(discriminate) ltac:(discriminate))
    as (_ & _ & _ & _ & _ & _ & _ & Hnew).
  destruct (Hnew rangeListed "" (fun m w0 => reflexivity _)) as (H1 & H2 & _).
  split; [rewrite H1 | rewrite H2]; reflexivity.
Defined.

(** C9, as the claim words it, fails for a tag that holds a value for
    the key: after [Attribute(x, a)], the call [Attribute(x, empty)]
    leaves the map as it was, and the fragment of [x] is rendered. *)
Lemma Attribute_empty_keeps_an_earlier_fragment :
  attributes (Attribute "x" "" (Attribute "x" "a" (NewTag (World := Builder) "t" false [])))
    !! "x" = Some "a"
  /\ Render builderWrite rangeListed
       (tag (Attribute "x" "" (Attribute "x" "a" (NewTag "t" false [])))) ""
     = (Ok, "<t x=" ++ String dquote ("a" ++ String dquote "></t>")).
Proof.
  split; vm_compute; reflexivity.
Qed.

(** X9: the attribute loop of [Tag.Render] writes each attribute once:
    on [strings.Builder] it appends the fragments of the entries in the
    order the runtime ranges over the map, as many as the map has
    entries, and the render of a tag is the open fragment, these
    fragments, and the end of the tag.  For a key that is set the
    fragments are those of entries of other keys, the one fragment of
    the key with its value, and again fragments of other keys; for a
    key that is not set no entry of the key is met. *)
Theorem each_attribute_is_written_once
  (rg : gmap string string -> Builder -> list (string * string))
  (e : Tag Builder) (k : string) (buf : Builder) :
  (forall m w0, rg m w0 ≡ₚ map_to_list m) ->
  renderAttributes builderWrite rg (attributes e) buf
    = (Ok, buf ++ attrFragments (rg (attributes e) buf))
  /\ length (rg (attributes e) buf) = size (attributes e)
  /\ Render builderWrite rg (tag e) buf
     = (if isVoid e
        then (Ok, buf ++ "<" ++ name e
                    ++ attrFragments (rg (attributes e) (buf ++ "<" ++ name e)) ++ "/>")
        else
          match Render builderWrite rg (Group (children e))
                  (buf ++ "<" ++ name e
                       ++ attrFragments (rg (attributes e) (buf ++ "<" ++ name e))
                       ++ ">")
          with
          | (Ok, b2) => (Ok, b2 ++ "</" ++ name e ++ ">")
          | failed => failed
          end)
  /\ match attributes e !! k with
     | Some v =>
         exists pre post,
           rg (attributes e) buf = (pre ++ (k, v) :: post)%list
           /\ (k ∉ pre.*1) /\ (k ∉ post.*1)
           /\ renderAttributes builderWrite rg (attributes e) buf
              = (Ok, buf ++ attrFragments pre
                         ++ (" " ++ k ++ "=" ++ String dquote (v ++ String dquote ""))
                         ++ attrFragments post)
     | None => k ∉ (rg (attributes e) buf).*1
     end.
Proof.
  intros Hrg.
  assert (Hloop : renderAttributes builderWrite rg (attributes e) buf
                  = (Ok, buf ++ attrFragments (rg (attributes e) buf))).
  { unfold renderAttributes. apply forEach_write_Builder. }
  conjs.
  - exact Hloop.
  - rewrite (Hrg (attributes e) buf). apply length_map_to_list.
  - apply Render_tag_Builder.
  - destruct (attributes e !! k) as [v|] eqn:E.
    + destruct (range_split rg (attributes e) k v buf Hrg E)
        as (pre & post & Heq & Hpre & Hpost).
      exists pre, post. split; [exact Heq |].
      split; [exact Hpre | split; [exact Hpost |]].
      rewrite Hloop, Heq, attrFragments_split. reflexivity.
    + rewrite (Hrg (attributes e) buf). intros Hin.
      apply list_elem_of_fmap in Hin as [[k1 v1] [Hk Hin]]. cbn in Hk. subst k1.
      apply elem_of_map_to_list in Hin. congruence.
Qed.

(** [each_attribute_is_written_once] for a void [input] with a [name] and
    a [type], ranged over in the order of [map_to_list], and the key
    [name]. *)
Lemma each_attribute_once_on_input :
  Render builderWrite rangeListed
    (tag (Attribute "type" "text" (Attribute "name" "q" (NewTag "input" true [])))) ""
  = (Ok, "<input name=" ++ String dquote ("q" ++ String dquote
           (" type=" ++ String dquote ("text" ++ String dquote "/>"))))
  /\ length
       (rangeListed
          (attributes
             (Attribute "type" "text"
                (Attribute "name" "q" (NewTag (World := Builder) "input" true []))))
          "")
     = 2.
Proof.
  pose proof (each_attribute_is_written_once rangeListed
                (Attribute "type" "text"
                   (Attribute "name" "q" (NewTag (World := Builder) "input" true [])))
                "name" "" (fun m w0 => reflexivity _)) as (_ & H2 & H3 & _).
  split; [rewrite H3; vm_compute; reflexivity |].
  etransitivity; [exact H2 | vm_compute; reflexivity].
Defined.
